(** * Expiry dashboard (app.js): CSV parser, expiry classifier, view builder

    A shallow embedding of [src/app.js] and the properties of its
    data-transformation pipeline.

    - JavaScript strings are sequences of UTF-16 code units ([list N]).
    - JavaScript numbers that occur here are integers or NaN ([Number]).
      Integers are kept exact as [Z]: time values are clipped to 8.64e15 ms,
      below 2^53; a component so long that [parseInt] would round it puts
      the date outside that range either way; and a quotient by 86400000 of
      such a difference is rounded by less than its distance to the next
      integer, so [Math.ceil] sees the same whole number of days.
    - Plain objects used as records are finite maps ([gmap]) from key to
      value; assignment goes through [obj_set], which follows the one
      special case of ordinary objects, the inherited [__proto__] setter.
    - The clock and the time zone of the host are parameters ([Env]). *)

From Stdlib Require Import ZArith Lia String Ascii.
From stdpp Require Import base option list sorting gmap.

Open Scope Z_scope.

(** ** Strings *)

Module JSString.

Abbreviation jsstring := (list N).

(** An ASCII literal as a sequence of code units. *)
Definition js (s : string) : jsstring :=
  List.map N_of_ascii (list_ascii_of_string s).

(** WhiteSpace and LineTerminator code points of ECMAScript: the characters
    removed by [String.prototype.trim] and skipped by [parseInt]. *)
Definition is_ws (c : N) : bool :=
  ((9 <=? c) && (c <=? 13) || (c =? 32) || (c =? 160) || (c =? 5760)
   || (8192 <=? c) && (c <=? 8202) || (c =? 8232) || (c =? 8233)
   || (c =? 8239) || (c =? 8287) || (c =? 12288) || (c =? 65279))%N.

Fixpoint trimStart (s : jsstring) : jsstring :=
  match s with
  | [] => []
  | c :: r => if is_ws c then trimStart r else s
  end.

Definition trimEnd (s : jsstring) : jsstring := rev (trimStart (rev s)).

(** [s.trim()] *)
Definition trim (s : jsstring) : jsstring := trimEnd (trimStart s).

(** [s.split(sep)] for a one-character separator: never empty, one more
    piece than there are separators. *)
Fixpoint split (sep : N) (s : jsstring) : list jsstring :=
  match s with
  | [] => [[]]
  | c :: r =>
      if (c =? sep)%N then [] :: split sep r
      else match split sep r with
           | p :: ps => (c :: p) :: ps
           | [] => [[c]]
           end
  end.

Definition starts_with_lf (s : jsstring) : bool :=
  match s with
  | c :: _ => (c =? 10)%N
  | [] => false
  end.

(** [s.split(/\r?\n/)]: a line feed ends a line, and a carriage return
    directly before it belongs to the separator. *)
Fixpoint split_lines (s : jsstring) : list jsstring :=
  match s with
  | [] => [[]]
  | c :: r =>
      if (c =? 10)%N then [] :: split_lines r
      else if (c =? 13)%N && starts_with_lf r then split_lines r
      else match split_lines r with
           | p :: ps => (c :: p) :: ps
           | [] => [[c]]
           end
  end.

Definition comma : N := 44.
Definition hyphen : N := 45.

End JSString.
Export JSString.

(** ** Numbers *)

(** The number values the program computes with: NaN or an integer. *)
Inductive Number : Type :=
  | NaN
  | Num (z : Z).

#[global] Instance Number_eq_dec : EqDecision Number.
Proof. solve_decision. Defined.

Definition isNaN (n : Number) : bool :=
  match n with NaN => true | Num _ => false end.

(** [a - b] *)
Definition num_sub (a b : Number) : Number :=
  match a, b with
  | Num x, Num y => Num (x - y)
  | _, _ => NaN
  end.

(** [a <= b]: false as soon as one side is NaN. *)
Definition num_le (a b : Number) : bool :=
  match a, b with
  | Num x, Num y => x <=? y
  | _, _ => false
  end.

Definition is_digit (c : N) : bool := ((48 <=? c) && (c <=? 57))%N.

(** Value of the longest prefix of decimal digits, [None] when it is empty. *)
Fixpoint digits_value (acc : option Z) (s : jsstring) : option Z :=
  match s with
  | [] => acc
  | c :: r =>
      if is_digit c
      then digits_value (Some (10 * default 0 acc + (Z.of_N c - 48))) r
      else acc
  end.

(** [parseInt(s, 10)]: leading white space is skipped, one sign is read,
    then the longest run of digits; anything after it is ignored. *)
Definition parseInt (s : jsstring) : Number :=
  let t := trimStart s in
  let '(sign, body) :=
    match t with
    | 45%N :: r => (-1, r)
    | 43%N :: r => (1, r)
    | _ => (1, t)
    end in
  match digits_value None body with
  | None => NaN
  | Some v => Num (sign * v)
  end.

(** ** Dates (ECMAScript time values) *)

Module JSDate.

Definition msPerDay : Z := 86400000.

(** [Day(t)] *)
Definition Day (t : Z) : Z := t / msPerDay.

Definition DayFromYear (y : Z) : Z :=
  365 * (y - 1970) + (y - 1969) / 4 - (y - 1901) / 100 + (y - 1601) / 400.

Definition InLeapYear (y : Z) : bool :=
  (y mod 4 =? 0) && (negb (y mod 100 =? 0) || (y mod 400 =? 0)).

(** Days before the first of month [m] (0 = January) inside its year. *)
Definition DaysBeforeMonth (m : Z) (leap : bool) : Z :=
  let l := if leap then 1 else 0 in
  match m with
  | 0 => 0
  | 1 => 31
  | 2 => 59 + l
  | 3 => 90 + l
  | 4 => 120 + l
  | 5 => 151 + l
  | 6 => 181 + l
  | 7 => 212 + l
  | 8 => 243 + l
  | 9 => 273 + l
  | 10 => 304 + l
  | _ => 334 + l
  end.

(** [MakeDay(year, month, date)]: months outside 0..11 carry into the year,
    days outside the month carry into the following (or preceding) months. *)
Definition MakeDay (year month date : Z) : Z :=
  let ym := year + month / 12 in
  let mn := month mod 12 in
  DayFromYear ym + DaysBeforeMonth mn (InLeapYear ym) + date - 1.

(** [TimeClip] *)
Definition TimeClip (t : Z) : Number :=
  if Z.abs t <=? 8640000000000000 then Num t else NaN.

(** The host: the instant [new Date()] reads; the offset of local time
    from UTC, given either a UTC instant ([true]) or a local time ([false])
    as in ECMAScript's LocalTZA; and the collation [String.prototype.localeCompare]
    uses. *)
Record Env : Type := {
  now : Z;
  LocalTZA : Z -> bool -> Z;
  localeCompare : jsstring -> jsstring -> Z
}.

(** [new Date(y, m, d)] reads years 0..99 as 1900..1999. *)
Definition full_year (y : Z) : Z :=
  if (0 <=? y) && (y <=? 99) then 1900 + y else y.

Section Local.
Variable env : Env.

Definition LocalTime (t : Z) : Z := t + LocalTZA env t true.
Definition UTC (t : Z) : Z := t - LocalTZA env t false.

(** [d.setHours(0,0,0,0)]: local midnight of the local day of [d]. *)
Definition setHours0 (d : Number) : Number :=
  match d with
  | NaN => NaN
  | Num t => TimeClip (UTC (Day (LocalTime t) * msPerDay))
  end.

(** [new Date(y, m, d)]: local midnight of that calendar day, an invalid
    date (NaN) when an argument is NaN or the instant is out of range. *)
Definition new_Date (y m d : Number) : Number :=
  match y, m, d with
  | Num y, Num m, Num d => TimeClip (UTC (MakeDay (full_year y) m d * msPerDay))
  | _, _, _ => NaN
  end.

(** [new Date()] *)
Definition new_Date_now : Number := Num (now env).
End Local.

(** [Math.ceil(x / msPerDay)] *)
Definition ceil_days (x : Number) : Number :=
  match x with
  | NaN => NaN
  | Num ms => Num (- ((- ms) / msPerDay))
  end.

End JSDate.
Export JSDate.

(** ** Expiry classifier *)

Inductive Status : Type := safe | soon | expired | noexpiry.

#[global] Instance Status_eq_dec : EqDecision Status.
Proof. solve_decision. Defined.

Record ExpiryInfo : Type := {
  daysLeft : option Number;   (* [None] is JavaScript's null *)
  status : Status
}.

#[global] Instance ExpiryInfo_eq_dec : EqDecision ExpiryInfo.
Proof. solve_decision. Defined.

Definition no_expiry : ExpiryInfo := {| daysLeft := None; status := noexpiry |}.

(** The threshold cascade of lines 94-98; [diffDays === null] is never
    true for a number. *)
Definition classify_days (diffDays : Number) : Status :=
  if num_le diffDays (Num 30) then expired
  else if num_le diffDays (Num 89) then soon
  else safe.

(** [parts[i]] as a number: a missing element is [undefined], hence NaN. *)
Definition part (parts : list Number) (i : nat) : Number := nth i parts NaN.

(** [computeExpiryInfo(expiryStr)]; the argument is [None] when the record
    has no such field ([undefined]). *)
Definition computeExpiryInfo (env : Env) (expiryStr : option jsstring) : ExpiryInfo :=
  match expiryStr with
  | None => no_expiry
  | Some s =>
      if bool_decide (s = []) || bool_decide (trim s = [hyphen]) then no_expiry
      else
        let today := setHours0 env (new_Date_now env) in
        let parts := List.map parseInt (split hyphen s) in
        if negb (length parts =? 3)%nat || existsb isNaN parts then no_expiry
        else
          let expiry :=
            setHours0 env (new_Date env (part parts 0) (num_sub (part parts 1) (Num 1))
                                    (part parts 2)) in
          let diffMs := num_sub expiry today in
          let diffDays := ceil_days diffMs in
          {| daysLeft := Some diffDays; status := classify_days diffDays |}
  end.

(** ** Tabular parser *)

(** A parsed row: a plain object with string values. *)
Abbreviation RowObject := (gmap jsstring jsstring).

Definition proto_key : jsstring := js "__proto__".

(** [obj[k] = v] on an object created by [{}], for a string [v]: an own
    property is created or overwritten, except for the key [__proto__],
    which reaches the setter inherited from [Object.prototype]; that setter
    ignores values that are neither objects nor null and stores nothing. *)
Definition obj_set (obj : RowObject) (k v : jsstring) : RowObject :=
  if bool_decide (k = proto_key) then obj else <[k := v]> obj.

(** [cols[i] || ''] *)
Definition cell (cols : list jsstring) (i : nat) : jsstring :=
  default [] (cols !! i).

(** [while (cols.length < n) cols.push('')] *)
Definition pad (cols : list jsstring) (n : nat) : list jsstring :=
  cols ++ replicate (n - length cols)%nat [].

(** [headers.forEach((h,i) => obj[h] = cols[i] || '')], from index [i] on. *)
Fixpoint assign_fields (headers : list jsstring) (i : nat)
    (cols : list jsstring) (obj : RowObject) : RowObject :=
  match headers with
  | [] => obj
  | h :: hs => assign_fields hs (S i) cols (obj_set obj h (cell cols i))
  end.

Definition tokens (line : jsstring) : list jsstring :=
  List.map trim (split comma line).

Definition row_to_record (headers : list jsstring) (line : jsstring) : RowObject :=
  let cols := pad (tokens line) (length headers) in
  assign_fields headers 0 cols ∅.

(** Lines 60-71 of [fetchAndParseCSV]: the response text to records. *)
Definition parseCSV (text : jsstring) : list RowObject :=
  let lines := split_lines (trim text) in
  if (length lines <=? 1)%nat then []
  else
    let headers := tokens (hd [] lines) in
    List.map (row_to_record headers) (tl lines).

(** ** Items and the view *)

(** '類別' *)
Definition key_category : jsstring := [39006; 21029]%N.
(** '到期日(YYYY-MM-DD)' *)
Definition key_expiry : jsstring := [21040; 26399; 26085]%N ++ js "(YYYY-MM-DD)".
Definition key_meta : jsstring := js "_meta".

(** [{ ...r, _meta: meta }]: the row's fields, with the key [_meta] bound to
    the expiry information (a column of that name is overridden). *)
Record Item : Type := {
  fields : RowObject;
  _meta : ExpiryInfo
}.

Definition make_item (env : Env) (r : RowObject) : Item :=
  {| fields := delete key_meta r;
     _meta := computeExpiryInfo env (r !! key_expiry) |}.

(** [raw.map(r => ({...r, _meta: computeExpiryInfo(r[...])}))] *)
Definition classify (env : Env) (raw : list RowObject) : list Item :=
  List.map (make_item env) raw.

(** [Array.prototype.sort(cmp)]: a stable sort; a comparator result of NaN
    counts as 0. Written as insertion from the right, which keeps equal
    elements in their original order. *)
Section Sort.
Context {A : Type} (cmp : A -> A -> Number).

Definition keeps_before (x y : A) : bool :=
  match cmp x y with
  | Num z => z <=? 0
  | NaN => true
  end.

Fixpoint sort_insert (x : A) (l : list A) : list A :=
  match l with
  | [] => [x]
  | y :: l' => if keeps_before x y then x :: l else y :: sort_insert x l'
  end.

Definition sort (l : list A) : list A := foldr sort_insert [] l.
End Sort.

(** [a._meta.daysLeft === null ? 99999 : a._meta.daysLeft] *)
Definition expiry_key (a : Item) : Number :=
  match daysLeft (_meta a) with
  | None => Num 99999
  | Some d => d
  end.

Definition cmp_expiry (a b : Item) : Number := num_sub (expiry_key a) (expiry_key b).

(** [a['類別'] || ''] *)
Definition category_or_empty (a : Item) : jsstring := default [] (fields a !! key_category).

Definition cmp_category (env : Env) (a b : Item) : Number :=
  Num (localeCompare env (category_or_empty a) (category_or_empty b)).

Definition has_status (s : Status) (i : Item) : Prop := status (_meta i) = s.

#[global] Instance has_status_dec s i : Decision (has_status s i).
Proof. unfold has_status. apply _. Defined.

Definition in_category (sel : jsstring) (i : Item) : Prop :=
  fields i !! key_category = Some sel.

#[global] Instance in_category_dec sel i : Decision (in_category sel i).
Proof. unfold in_category. apply _. Defined.

(** [i._meta.status === 'expired' || (i._meta.daysLeft !== null && i._meta.daysLeft <= 30)] *)
Definition is_urgentb (i : Item) : bool :=
  bool_decide (status (_meta i) = expired)
  || match daysLeft (_meta i) with
     | Some d => num_le d (Num 30)
     | None => false
     end.

(** The filter step of [renderAll] (lines 107-111). *)
Definition apply_filter (selectedFilter : jsstring) (items : list Item) : list Item :=
  if negb (bool_decide (selectedFilter = [])) && negb (bool_decide (selectedFilter = js "all"))
  then filter (in_category selectedFilter) items
  else items.

(** The sort step of [renderAll] (lines 114-123). *)
Definition apply_sort (env : Env) (sortMode : jsstring) (l : list Item) : list Item :=
  if bool_decide (sortMode = js "category") then sort (cmp_category env) l
  else if bool_decide (sortMode = js "expiry") then sort cmp_expiry l
  else l.

(** [items.filter(i => i._meta.status === s).length] *)
Definition count_status (s : Status) (items : list Item) : nat :=
  length (filter (has_status s) items).

(** Lines 136-141: the urgent items, soonest first. *)
Definition urgent_items (items : list Item) : list Item :=
  sort cmp_expiry (filter (fun i => is_urgentb i = true) items).

(** ** The page: dashboard elements and program state *)

(** Content of an element the script fills in: what the script wrote last,
    or content of some other form that came with the page markup. *)
Inductive Html (A : Type) : Type :=
  | OtherMarkup
  | Rendered (a : A).
Arguments OtherMarkup {A}.
Arguments Rendered {A} a.

(** The days-left label of an urgent row (line 148). *)
Inductive Label : Type :=
  | LabelNoExpiry
  | LabelRemaining (d : Number)
  | LabelOverdue (d : Number).

Definition days_label (d : option Number) : Label :=
  match d with
  | None => LabelNoExpiry
  | Some NaN => LabelOverdue NaN
  | Some (Num z) => if 0 <=? z then LabelRemaining (Num z) else LabelOverdue (Num (Z.abs z))
  end.

(** The urgent list: the 'no urgent items' note, or one row per item. *)
Inductive UrgentHtml : Type :=
  | NoUrgentNote
  | UrgentRows (rows : list (Item * Label)).

(** A card is determined by the arguments of [createItemCard]. *)
Definition Card : Type := Item * nat.

Inductive ButtonText : Type := BtnMarkup | BtnUpdating | BtnRefresh.

Record Dom : Type := {
  filterSelect_value : jsstring;
  sortSelect_value : jsstring;
  totalCountEl : Html nat;
  safeCountEl : Html nat;
  soonCountEl : Html nat;
  expiredCountEl : Html nat;
  urgentList : Html UrgentHtml;
  listColLeft : Html (list Card);
  listColRight : Html (list Card);
  refreshBtn_disabled : bool;
  refreshBtn_text : ButtonText
}.

(** Cards alternate between the two columns, numbered from 1 (lines 159-163). *)
Fixpoint column (parity : bool) (idx : nat) (l : list Item) : list Card :=
  match l with
  | [] => []
  | it :: r =>
      if bool_decide (Nat.even idx = parity)
      then (it, S idx) :: column parity (S idx) r
      else column parity (S idx) r
  end.

(** [renderAll()] on the current [items]. *)
Definition renderAll (env : Env) (items : list Item) (page : Dom) : Dom :=
  let filtered := apply_sort env (sortSelect_value page)
                    (apply_filter (filterSelect_value page) items) in
  let urgents := urgent_items items in
  {| filterSelect_value := filterSelect_value page;
     sortSelect_value := sortSelect_value page;
     totalCountEl := Rendered (length items);
     safeCountEl := Rendered (count_status safe items);
     soonCountEl := Rendered (count_status soon items);
     expiredCountEl := Rendered (count_status expired items);
     urgentList :=
       Rendered (if (length urgents =? 0)%nat then NoUrgentNote
                 else UrgentRows (List.map (fun i => (i, days_label (daysLeft (_meta i)))) urgents));
     listColLeft := Rendered (column true 0 filtered);
     listColRight := Rendered (column false 0 filtered);
     refreshBtn_disabled := refreshBtn_disabled page;
     refreshBtn_text := refreshBtn_text page |}.

Inductive Alert : Type :=
  | AlertSetCsvUrl       (* line 54 *)
  | AlertRefreshFailed.  (* line 255 *)

Record State : Type := {
  items : list Item;
  page : Dom;
  alerts : list Alert;        (* notifications shown so far, latest first *)
  console_errors : nat
}.

(** How an asynchronous function ends: its promise is fulfilled, or it is
    rejected with the error that escaped. *)
Inductive Completion (A : Type) : Type :=
  | Fulfilled (a : A)
  | Rejected.
Arguments Fulfilled {A} a.
Arguments Rejected {A}.

(** What [fetch(CSV_URL)] followed by [resp.text()] delivers. *)
Inductive FetchOutcome : Type :=
  | FetchFails
  | FetchText (text : jsstring).

(** [CSV_URL.includes("<YOUR_PUB_ID>")] for the URL configured on line 17. *)
Definition CSV_URL_is_placeholder : bool := false.

Definition add_alert (a : Alert) (st : State) : State :=
  {| items := items st; page := page st; alerts := a :: alerts st;
     console_errors := console_errors st |}.

Definition set_items (l : list Item) (st : State) : State :=
  {| items := l; page := page st; alerts := alerts st;
     console_errors := console_errors st |}.

Definition set_page (d : Dom) (st : State) : State :=
  {| items := items st; page := d; alerts := alerts st;
     console_errors := console_errors st |}.

Definition set_button (disabled : bool) (text : ButtonText) (st : State) : State :=
  let d := page st in
  set_page {| filterSelect_value := filterSelect_value d;
             sortSelect_value := sortSelect_value d;
             totalCountEl := totalCountEl d; safeCountEl := safeCountEl d;
             soonCountEl := soonCountEl d; expiredCountEl := expiredCountEl d;
             urgentList := urgentList d;
             listColLeft := listColLeft d; listColRight := listColRight d;
             refreshBtn_disabled := disabled; refreshBtn_text := text |} st.

(** [fetchAndParseCSV()] *)
Definition fetchAndParseCSV (net : FetchOutcome) (st : State)
    : State * Completion (list RowObject) :=
  if CSV_URL_is_placeholder then (add_alert AlertSetCsvUrl st, Fulfilled [])
  else match net with
       | FetchFails => (st, Rejected)
       | FetchText text => (st, Fulfilled (parseCSV text))
       end.

(** The body shared by [init] and the refresh handler: replace [items],
    then render. *)
Definition load_and_render (env : Env) (raw : list RowObject) (st : State) : State :=
  let st1 := set_items (classify env raw) st in
  set_page (renderAll env (items st1) (page st1)) st1.

(** [init()], the 'load' listener: nothing awaits or catches its promise. *)
Definition init (env : Env) (net : FetchOutcome) (st : State) : State * Completion unit :=
  match fetchAndParseCSV net st with
  | (st1, Rejected) => (st1, Rejected)
  | (st1, Fulfilled raw) =>
      if (length raw =? 0)%nat then (st1, Fulfilled tt)
      else (load_and_render env raw st1, Fulfilled tt)
  end.

(** The click handler of the refresh button: try / catch / finally. *)
Definition refresh_click (env : Env) (net : FetchOutcome) (st : State)
    : State * Completion unit :=
  let st0 := set_button true BtnUpdating st in
  let st2 :=
    match fetchAndParseCSV net st0 with
    | (st1, Fulfilled raw) => load_and_render env raw st1
    | (st1, Rejected) =>
        add_alert AlertRefreshFailed
          {| items := items st1; page := page st1; alerts := alerts st1;
             console_errors := S (console_errors st1) |}
    end in
  (set_button false BtnRefresh st2, Fulfilled tt).

(** The user picks new values in the two selects. *)
Definition set_selects (filter_value sort_value : jsstring) (d : Dom) : Dom :=
  {| filterSelect_value := filter_value; sortSelect_value := sort_value;
     totalCountEl := totalCountEl d; safeCountEl := safeCountEl d;
     soonCountEl := soonCountEl d; expiredCountEl := expiredCountEl d;
     urgentList := urgentList d;
     listColLeft := listColLeft d; listColRight := listColRight d;
     refreshBtn_disabled := refreshBtn_disabled d;
     refreshBtn_text := refreshBtn_text d |}.

(** A 'change' event of either select (lines 243-244). *)
Definition select_change (env : Env) (filter_value sort_value : jsstring) (st : State) : State :=
  set_page (renderAll env (items st) (set_selects filter_value sort_value (page st))) st.

(** The state a refresh leaves behind when the document has no data rows,
    with the selects at the given values: no items and the empty dashboard
    as [renderAll] writes it. The starting state of the examples. *)
Definition empty_rendered_state (filter_value sort_value : jsstring) : State :=
  {| items := [];
     page := {| filterSelect_value := filter_value; sortSelect_value := sort_value;
               totalCountEl := Rendered 0%nat; safeCountEl := Rendered 0%nat;
               soonCountEl := Rendered 0%nat; expiredCountEl := Rendered 0%nat;
               urgentList := Rendered NoUrgentNote;
               listColLeft := Rendered []; listColRight := Rendered [];
               refreshBtn_disabled := false; refreshBtn_text := BtnRefresh |};
     alerts := [];
     console_errors := 0 |}.

(** ** Item cards *)

(** '名稱', '數量', '備註' *)
Definition key_name : jsstring := [21517; 31281]%N.
Definition key_quantity : jsstring := [25976; 37327]%N.
Definition key_note : jsstring := [20633; 35387]%N.

(** [ICON_MAP] (lines 22-32): category name to emoji, as code units. *)
Definition ICON_MAP : gmap jsstring jsstring :=
  list_to_map
    [ ([39135; 29289]%N, [55356; 57201]%N)    (* 食物 *)
    ; ([39154; 27700]%N, [55358; 56667]%N)    (* 飲水 *)
    ; ([34277; 21697]%N, [55357; 56458]%N)    (* 藥品 *)
    ; ([38450; 35703]%N, [55358; 56953]%N)    (* 防護 *)
    ; ([34907; 29983]%N, [55358; 56827]%N)    (* 衛生 *)
    ; ([29031; 26126]%N, [55357; 56614]%N)    (* 照明 *)
    ; ([24037; 20855]%N, [55358; 56816]%N)    (* 工具 *)
    ; ([20854; 20182]%N, [55357; 56550]%N) ]. (* 其他 *)

(** The box emoji used when the category has no icon. *)
Definition default_icon : jsstring := [55357; 56550]%N.

(** The properties every plain object inherits from [Object.prototype];
    [ICON_MAP[k]] finds them too, and their values are truthy. *)
Definition Object_prototype_members : list jsstring :=
  List.map js
    [ "constructor"; "hasOwnProperty"; "isPrototypeOf"; "propertyIsEnumerable";
      "toLocaleString"; "toString"; "valueOf"; "__proto__";
      "__defineGetter__"; "__defineSetter__"; "__lookupGetter__";
      "__lookupSetter__" ]%string.

(** What [ICON_MAP[k] || default] evaluates to: an emoji string, or the
    inherited member found under the name [k]. *)
Inductive IconValue : Type :=
  | Glyph (s : jsstring)
  | Inherited (member : jsstring).

(** [ICON_MAP[item['類別']] || default]; a missing category is the key
    ["undefined"]. *)
Definition icon_of (category : option jsstring) : IconValue :=
  let k := default (js "undefined") category in
  match ICON_MAP !! k with
  | Some g => if bool_decide (g = []) then Glyph default_icon else Glyph g
  | None =>
      if bool_decide (k ∈ Object_prototype_members) then Inherited k
      else Glyph default_icon
  end.

Inductive StatusClass : Type := status_green | status_yellow | status_red.

Inductive StatusText : Type :=
  | TextSafe        (* '安全' *)
  | TextNoExpiry    (* '無保存期限' *)
  | TextSoon        (* '即將到期' *)
  | TextExpired.    (* '已過期/≤30天' *)

(** [v || fallback] for a string or undefined [v]. *)
Definition or_else (v : option jsstring) (fallback : jsstring) : jsstring :=
  match v with
  | Some (c :: r) => c :: r
  | _ => fallback
  end.

(** What [createItemCard] puts into the card: the values it interpolates.
    A [None] name or category is [undefined]. *)
Record CardView : Type := {
  card_icon : IconValue;
  card_index : nat;
  card_name : option jsstring;
  card_qty : jsstring;
  card_category : option jsstring;
  card_expiry : jsstring;
  card_days : Label;
  card_statusClass : StatusClass;
  card_statusText : StatusText;
  card_note : option jsstring      (* [None]: no note line *)
}.

(** [createItemCard(item, index)] (lines 167-221). *)
Definition createItemCard (item : Item) (index : nat) : CardView :=
  let '(statusText, statusClass) :=
    match status (_meta item) with
    | noexpiry => (TextNoExpiry, status_green)
    | safe => (TextSafe, status_green)
    | soon => (TextSoon, status_yellow)
    | expired => (TextExpired, status_red)
    end in
  let note := or_else (fields item !! key_note) [] in
  {| card_icon := icon_of (fields item !! key_category);
     card_index := index;
     card_name := fields item !! key_name;
     card_qty := match fields item !! key_quantity with
                 | Some (c :: r) => 120%N :: c :: r
                 | _ => []
                 end;
     card_category := fields item !! key_category;
     card_expiry := or_else (fields item !! key_expiry) [8212%N];
     card_days := days_label (daysLeft (_meta item));
     card_statusClass := statusClass;
     card_statusText := statusText;
     card_note := match note with [] => None | _ => Some note end |}.

(** The cards of a column as they are built. *)
Definition column_views (cards : list Card) : list CardView :=
  List.map (fun c => createItemCard (fst c) (snd c)) cards.

(** ** Hosts used in examples *)

Definition hours (h : Z) : Z := h * 3600000.

(** A host on UTC. The collation of the example hosts lets all strings tie;
    the examples do not sort by category. *)
Definition utc_host (t : Z) : Env :=
  {| now := t; LocalTZA := fun _ _ => 0; localeCompare := fun _ _ => 0 |}.

(** A host at a fixed offset from UTC (no daylight saving). *)
Definition fixed_offset_host (t offset : Z) : Env :=
  {| now := t; LocalTZA := fun _ _ => offset; localeCompare := fun _ _ => 0 |}.

(** Instant (UTC) of a calendar date and hour given in UTC. *)
Definition utc_instant (y m d h : Z) : Z := MakeDay y (m - 1) d * msPerDay + hours h.

(** America/New_York during 2024: UTC-5, and UTC-4 from 10 March 07:00 UTC
    to 3 November 06:00 UTC. Local times are read with the offset in force
    before a transition, as ECMAScript prescribes. *)
Definition new_york_2024 (t : Z) (isUTC : bool) : Z :=
  if isUTC
  then if (utc_instant 2024 3 10 7 <=? t) && (t <? utc_instant 2024 11 3 6)
       then hours (-4) else hours (-5)
  else if (utc_instant 2024 3 10 3 <=? t) && (t <? utc_instant 2024 11 3 2)
       then hours (-4) else hours (-5).

Definition new_york_host (t : Z) : Env :=
  {| now := t; LocalTZA := new_york_2024; localeCompare := fun _ _ => 0 |}.

(** ** Vocabulary of the properties *)

(** Number of occurrences of a code unit in a string. *)
Definition occurrences (sep : N) (s : jsstring) : nat := length (filter (eq sep) s).

(** The days-left value of a well-formed date: whole days, rounded up, from
    today's local midnight to the local midnight of the date. *)
Definition days_until (env : Env) (y m d : Z) : Number :=
  ceil_days (num_sub (setHours0 env (new_Date env (Num y) (Num (m - 1)) (Num d)))
                     (setHours0 env (new_Date_now env))).

(** The calendar date [y]-[m]-[d] lies [k] days after today's local date. *)
Definition days_ahead (env : Env) (y m d k : Z) : Prop :=
  MakeDay (full_year y) (m - 1) d = Day (LocalTime env (now env)) + k.

(** Local midnight of today and of [y]-[m]-[d] are both [off] ms ahead of
    UTC, and both instants are representable time values. *)
Definition same_offset (env : Env) (y m d off : Z) : Prop :=
  let T := Day (LocalTime env (now env)) * msPerDay in
  let E := MakeDay (full_year y) (m - 1) d * msPerDay in
  LocalTZA env T false = off /\ LocalTZA env E false = off
  /\ LocalTZA env (E - off) true = off
  /\ Z.abs (T - off) <= 8640000000000000
  /\ Z.abs (E - off) <= 8640000000000000.


(** The number of items with a given status, counted one item at a time. *)
Fixpoint status_tally (s : Status) (l : list Item) : nat :=
  match l with
  | [] => 0
  | i :: r => ((if decide (status (_meta i) = s) then 1 else 0) + status_tally s r)%nat
  end.

(** The sort key of the 'expiry' mode as an integer: 99999 stands in for a
    null [daysLeft]. *)
Definition expiry_rank (a : Item) : Z :=
  match daysLeft (_meta a) with
  | None => 99999
  | Some (Num z) => z
  | Some NaN => 0
  end.

(** The item has no expiry date, or one that is a valid calendar instant. *)
Definition valid_days (a : Item) : Prop := daysLeft (_meta a) <> Some NaN.

#[global] Instance valid_days_dec a : Decision (valid_days a).
Proof. unfold valid_days. apply _. Defined.

(** The dashboard of an empty data set: all counters zero and the 'no
    urgent items' note. *)
Definition shows_empty_dashboard (d : Dom) : Prop :=
  totalCountEl d = Rendered 0%nat /\ safeCountEl d = Rendered 0%nat
  /\ soonCountEl d = Rendered 0%nat /\ expiredCountEl d = Rendered 0%nat
  /\ urgentList d = Rendered NoUrgentNote.

(** Taipei, UTC+8 all year, at noon of 1 January 2024. *)
Definition taipei_noon : Env := fixed_offset_host (utc_instant 2024 1 1 4) (hours 8).

(** A host on UTC at noon of 1 January 2024, and a sheet with a name
    column and the expiry column. *)
Definition sample_env : Env := utc_host (utc_instant 2024 1 1 12).

Definition sample_text (rows : list string) : jsstring :=
  js "item," ++ key_expiry ++ concat (List.map (fun r => 10%N :: js r) rows).

Definition sample_items (rows : list string) : list Item :=
  classify sample_env (parseCSV (sample_text rows)).

(** [parts.join(sep)], the inverse the splitting functions are measured
    against. *)
Fixpoint join (sep : jsstring) (parts : list jsstring) : jsstring :=
  match parts with
  | [] => []
  | p :: ps => match ps with [] => p | _ :: _ => p ++ sep ++ join sep ps end
  end.

(** Alternate between two lists, starting with the first. *)
Fixpoint interleave {A : Type} (l r : list A) : list A :=
  match l with
  | [] => r
  | x :: l' => match r with
               | [] => x :: l'
               | y :: r' => x :: y :: interleave l' r'
               end
  end.

(** No white space at either end. *)
Definition tight (s : jsstring) : Prop :=
  (forall c, head s = Some c -> is_ws c = false)
  /\ (forall c, last s = Some c -> is_ws c = false).

(** A cell that survives a trip through the sheet: no surrounding white
    space, no comma, no line feed. *)
Definition clean_cell (c : jsstring) : Prop :=
  trim c = c /\ (comma ∉ c) /\ (10%N ∉ c).

(** A sheet as text: one line per row, cells joined by commas. *)
Definition sheet_text (eol : jsstring) (rows : list (list jsstring)) : jsstring :=
  join eol (List.map (join [comma]) rows).

(** * Properties *)

(** ** Strings: splitting and trimming *)

Section StringFacts.
Implicit Types (s : jsstring) (sep : N).

Lemma split_length sep s : length (split sep s) = S (occurrences sep s).
Proof.
  unfold occurrences. induction s as [|c r IH]; [reflexivity|].
  cbn [split]. rewrite filter_cons.
  destruct (N.eqb_spec c sep) as [->|Hne].
  - rewrite decide_True by reflexivity. cbn. now rewrite IH.
  - rewrite decide_False by congruence.
    destruct (split sep r) as [|p ps]; cbn in *; lia.
Qed.

Lemma split_nonempty sep s : split sep s <> [].
Proof. intros H. pose proof (split_length sep s) as L. rewrite H in L. discriminate. Qed.

Lemma trimStart_spec s :
  exists ws, s = ws ++ trimStart s /\ Forall (fun c => is_ws c = true) ws.
Proof.
  induction s as [|c r [ws [E F]]]; [exists []; split; [reflexivity|constructor]|].
  cbn [trimStart]. destruct (is_ws c) eqn:W.
  - exists (c :: ws). split; [cbn; congruence | constructor; assumption].
  - exists []. split; [reflexivity | constructor].
Qed.

Lemma trim_spec s :
  exists a b, s = a ++ trim s ++ b
              /\ Forall (fun c => is_ws c = true) a
              /\ Forall (fun c => is_ws c = true) b.
Proof.
  destruct (trimStart_spec s) as [a [Ea Fa]].
  destruct (trimStart_spec (rev (trimStart s))) as [b [Eb Fb]].
  exists a, (rev b). repeat split; [|assumption|now apply Forall_rev].
  unfold trim, trimEnd. rewrite <- rev_app_distr, <- Eb, rev_involutive. exact Ea.
Qed.

Lemma occurrences_app sep s t :
  occurrences sep (s ++ t) = (occurrences sep s + occurrences sep t)%nat.
Proof. unfold occurrences. now rewrite filter_app, length_app. Qed.

Lemma occurrences_ws s :
  Forall (fun c => is_ws c = true) s -> occurrences hyphen s = 0%nat.
Proof.
  unfold occurrences. induction 1 as [|c r W _ IH]; [reflexivity|].
  rewrite filter_cons. destruct (decide (hyphen = c)) as [<-|]; [discriminate W | exact IH].
Qed.

(** Trimming removes no hyphen. *)
Lemma occurrences_trim s : occurrences hyphen (trim s) = occurrences hyphen s.
Proof.
  destruct (trim_spec s) as [a [b [E [Fa Fb]]]].
  rewrite E at 2. rewrite !occurrences_app, (occurrences_ws a), (occurrences_ws b) by assumption.
  lia.
Qed.

Lemma three_parts_not_hyphen s :
  length (split hyphen s) = 3%nat -> s <> [] /\ trim s <> [hyphen].
Proof.
  intros L. rewrite split_length in L. split.
  - intros ->. discriminate L.
  - intros T. rewrite <- occurrences_trim, T in L. discriminate L.
Qed.
End StringFacts.

(** ** Expiry classifier *)

(** Three components that all parse: the dated branch is taken. *)
Lemma computeExpiryInfo_dated env s a b c y m d :
  split hyphen s = [a; b; c] ->
  parseInt a = Num y -> parseInt b = Num m -> parseInt c = Num d ->
  computeExpiryInfo env (Some s) =
    {| daysLeft := Some (days_until env y m d);
       status := classify_days (days_until env y m d) |}.
Proof.
  intros Hs Ha Hb Hc.
  destruct (three_parts_not_hyphen s) as [Hne Htrim]; [now rewrite Hs|].
  unfold computeExpiryInfo.
  rewrite (bool_decide_eq_false_2 _ Hne), (bool_decide_eq_false_2 _ Htrim).
  rewrite Hs. cbn [List.map length Nat.eqb negb orb existsb part nth].
  rewrite Ha, Hb, Hc. reflexivity.
Qed.

Lemma classify_days_dated n : classify_days n <> noexpiry.
Proof. unfold classify_days. repeat case_match; discriminate. Qed.

(** The cascade on a number of days. *)
Lemma classify_days_thresholds z :
  classify_days (Num z) =
    if z <=? 30 then expired else if z <=? 89 then soon else safe.
Proof. reflexivity. Qed.

(** Whatever the input, a non-null [daysLeft] decides the status by the
    cascade, and a null one goes with [noexpiry]. *)
Lemma computeExpiryInfo_status env arg :
  match daysLeft (computeExpiryInfo env arg) with
  | Some n => status (computeExpiryInfo env arg) = classify_days n
  | None => status (computeExpiryInfo env arg) = noexpiry
  end.
Proof.
  unfold computeExpiryInfo. destruct arg as [s|]; [|reflexivity].
  destruct (_ || _); [reflexivity|].
  destruct (_ || _); reflexivity.
Qed.

Lemma TimeClip_in_range t : Z.abs t <= 8640000000000000 -> TimeClip t = Num t.
Proof. intros H. unfold TimeClip. now rewrite (proj2 (Z.leb_le _ _) H). Qed.

Lemma ceil_whole_days k : ceil_days (Num (k * msPerDay)) = Num k.
Proof.
  unfold ceil_days. f_equal.
  replace (- (k * msPerDay)) with ((- k) * msPerDay) by ring.
  rewrite Z.div_mul by discriminate. ring.
Qed.

(** With the same offset at both midnights the difference is a whole number
    of days and [daysLeft] is the calendar distance. *)
Lemma days_until_same_offset env y m d off k :
  same_offset env y m d off -> days_ahead env y m d k ->
  days_until env y m d = Num k.
Proof.
  unfold same_offset, days_ahead, days_until.
  intros (HT & HE & HE' & RT & RE) Hk.
  set (T := Day (LocalTime env (now env))) in *.
  set (D := MakeDay (full_year y) (m - 1) d) in *.
  assert (Hexp : setHours0 env (new_Date env (Num y) (Num (m - 1)) (Num d))
                 = Num (D * msPerDay - off)).
  { unfold new_Date. fold D. unfold UTC at 1. rewrite HE, TimeClip_in_range by exact RE.
    unfold setHours0, LocalTime. rewrite HE'.
    replace (D * msPerDay - off + off) with (D * msPerDay) by ring.
    unfold Day at 1. rewrite Z.div_mul by discriminate.
    unfold UTC. rewrite HE. now apply TimeClip_in_range. }
  assert (Htoday : setHours0 env (new_Date_now env) = Num (T * msPerDay - off)).
  { unfold new_Date_now, setHours0. fold T. unfold UTC. rewrite HT.
    now apply TimeClip_in_range. }
  rewrite Hexp, Htoday. cbn [num_sub].
  replace (D * msPerDay - off - (T * msPerDay - off)) with (k * msPerDay)
    by (rewrite Hk; ring).
  apply ceil_whole_days.
Qed.





Lemma existsb_isNaN_parts (l : list jsstring) :
  Exists (fun c => parseInt c = NaN) l -> existsb isNaN (List.map parseInt l) = true.
Proof.
  induction 1 as [c l H | c l _ IH]; cbn [List.map existsb].
  - now rewrite H.
  - rewrite IH. apply orb_true_r.
Qed.

(** C2. An empty string, a string that trims to ["-"], a string that does
    not split on ['-'] into exactly three components, and a string with a
    component that [parseInt] turns into NaN all give
    [{daysLeft: null, status: noexpiry}]. [computeExpiryInfo] is a total
    function: it has a result for every string (and for a missing field),
    no step of it can throw. *)
Theorem computeExpiryInfo_fallback env s :
  s = [] \/ trim s = [hyphen]
  \/ length (split hyphen s) <> 3%nat
  \/ Exists (fun c => parseInt c = NaN) (split hyphen s) ->
  computeExpiryInfo env (Some s) = {| daysLeft := None; status := noexpiry |}.
Proof.
  intros H. unfold computeExpiryInfo.
  destruct (bool_decide (s = []) || bool_decide (trim s = [hyphen])) eqn:G; [reflexivity|].
  apply orb_false_iff in G as [G1 G2].
  apply bool_decide_eq_false in G1, G2.
  destruct H as [H | [H | [H | H]]]; try contradiction.
  - rewrite length_map. apply Nat.eqb_neq in H. now rewrite H.
  - rewrite (existsb_isNaN_parts _ H), orb_true_r. reflexivity.
Qed.

Lemma computeExpiryInfo_fallback_witness :
  computeExpiryInfo (utc_host 0) (Some (js "not-a-date")) = no_expiry
  /\ computeExpiryInfo (utc_host 0) (Some (js "2024-13")) = no_expiry
  /\ computeExpiryInfo (utc_host 0) (Some (js " - ")) = no_expiry.
Proof.
  split; [|split].
  - apply (computeExpiryInfo_fallback (utc_host 0) (js "not-a-date")).
    right; right; right. apply Exists_cons_hd. reflexivity.
  - apply (computeExpiryInfo_fallback (utc_host 0) (js "2024-13")).
    right; right; left. vm_compute. lia.
  - apply (computeExpiryInfo_fallback (utc_host 0) (js " - ")).
    right; left. reflexivity.
Defined.

(** The inputs the specification lists, on any host. *)
Example computeExpiryInfo_fallback_examples env :
  Forall (fun s => computeExpiryInfo env (Some (js s)) = no_expiry)
         ["-"; ""; " "; "not-a-date"; "2024-13"]%string
  /\ computeExpiryInfo env None = no_expiry.
Proof. split; [repeat constructor|reflexivity]. Qed.

(** A month index of twelve or more carries into the year. *)
Lemma MakeDay_month_carry year month date :
  MakeDay year (month + 12) date = MakeDay (year + 1) month date.
Proof.
  unfold MakeDay.
  replace (month + 12) with (month + 1 * 12) by ring.
  rewrite Z.div_add, Z.mod_add by discriminate.
  replace (year + (month / 12 + 1)) with (year + 1 + month / 12) by ring.
  reflexivity.
Qed.

(** Days past the end of a month run on into the next days. *)
Lemma MakeDay_day_carry year month date k :
  MakeDay year month (date + k) = MakeDay year month date + k.
Proof. unfold MakeDay. ring. Qed.

(** C10. A string that splits on ['-'] into three components which
    [parseInt] accepts never falls back to [noexpiry]: [daysLeft] is a
    number (not null) and the status is one of [expired], [soon], [safe],
    both computed from the date the [Date] constructor builds. Out-of-range
    months and days roll over: month 13 of a year is January of the next
    year, and day numbers past the end of the month count on. *)
Theorem computeExpiryInfo_lenient_date env s a b c y m d :
  split hyphen s = [a; b; c] ->
  parseInt a = Num y -> parseInt b = Num m -> parseInt c = Num d ->
  let r := computeExpiryInfo env (Some s) in
  let n := ceil_days (num_sub (setHours0 env (new_Date env (Num y) (Num (m - 1)) (Num d)))
                              (setHours0 env (new_Date_now env))) in
  daysLeft r = Some n /\ status r = classify_days n /\ status r <> noexpiry
  /\ (m = 13 ->
      new_Date env (Num y) (Num (m - 1)) (Num d)
      = TimeClip (UTC env (MakeDay (full_year y + 1) 0 d * msPerDay)))
  /\ (forall k, MakeDay (full_year y) (m - 1) (d + k) = MakeDay (full_year y) (m - 1) d + k).
Proof.
  intros Hs Ha Hb Hc r n. subst r n.
  rewrite (computeExpiryInfo_dated env s a b c y m d Hs Ha Hb Hc). cbn [daysLeft status].
  fold (days_until env y m d).
  repeat split.
  - apply classify_days_dated.
  - intros ->. unfold new_Date. now rewrite <- MakeDay_month_carry.
  - intros k. apply MakeDay_day_carry.
Qed.

Lemma computeExpiryInfo_lenient_date_witness :
  let env := utc_host (utc_instant 2024 12 1 9) in
  computeExpiryInfo env (Some (js "2024x-13-40"))
  = {| daysLeft := Some (Num 70); status := soon |}
  /\ computeExpiryInfo env (Some (js "2025-02-09"))
     = computeExpiryInfo env (Some (js "2024x-13-40")).
Proof.
  intros env.
  destruct (computeExpiryInfo_lenient_date env (js "2024x-13-40")
              (js "2024x") (js "13") (js "40") 2024 13 40
              eq_refl eq_refl eq_refl eq_refl) as (Hd & Hst & _).
  split; [|reflexivity].
  destruct (computeExpiryInfo env (Some (js "2024x-13-40"))) as [dl st].
  cbn in Hd, Hst. subst dl st. vm_compute. reflexivity.
Defined.

(** ** Tabular parser *)

Section ParserFacts.
Implicit Types (headers cols : list jsstring) (obj : RowObject) (h : jsstring).

Lemma cell_pad cols n j : cell (pad cols n) j = cell cols j.
Proof.
  unfold cell, pad. destruct (decide (j < length cols)%nat) as [Hlt|Hge].
  - now rewrite lookup_app_l.
  - rewrite lookup_app_r, (lookup_ge_None_2 cols j) by lia.
    destruct (replicate _ _ !! _) eqn:E; [|reflexivity].
    apply lookup_replicate in E as [-> _]. reflexivity.
Qed.

Lemma cell_missing cols j : (length cols <= j)%nat -> cell cols j = [].
Proof. intros H. unfold cell. now rewrite lookup_ge_None_2. Qed.

Lemma cell_take cols n j : (j < n)%nat -> cell (take n cols) j = cell cols j.
Proof. intros H. unfold cell. now rewrite lookup_take_lt. Qed.

Lemma obj_set_lookup_ne obj k v h : h <> k -> obj_set obj k v !! h = obj !! h.
Proof. intros H. unfold obj_set. case_bool_decide; [reflexivity|]. now apply lookup_insert_ne. Qed.

Lemma obj_set_lookup_eq obj k v : k <> proto_key -> obj_set obj k v !! k = Some v.
Proof. intros H. unfold obj_set. rewrite bool_decide_eq_false_2 by exact H. apply lookup_insert_eq. Qed.

Lemma obj_set_dom obj k v h :
  h ∈ dom (obj_set obj k v) <-> h ∈ dom obj \/ (h = k /\ k <> proto_key).
Proof.
  unfold obj_set. case_bool_decide as E.
  - tauto.
  - rewrite dom_insert_L, elem_of_union, elem_of_singleton. tauto.
Qed.

(** A key that is no header keeps its binding. *)
Lemma assign_fields_other headers i cols obj h :
  h ∉ headers -> assign_fields headers i cols obj !! h = obj !! h.
Proof.
  revert i obj. induction headers as [|h0 hs IH]; intros i obj Hn; [reflexivity|].
  apply not_elem_of_cons in Hn as [Hne Hn]. cbn [assign_fields].
  rewrite IH by exact Hn. now apply obj_set_lookup_ne.
Qed.

(** A header is bound to the cell under its last occurrence. *)
Lemma assign_fields_lookup headers i cols obj j h :
  headers !! j = Some h -> h <> proto_key ->
  (forall j', (j < j')%nat -> headers !! j' <> Some h) ->
  assign_fields headers i cols obj !! h = Some (cell cols (i + j)).
Proof.
  revert i obj j. induction headers as [|h0 hs IH]; intros i obj j Hj Hp Hlast; [discriminate|].
  cbn [assign_fields]. destruct j as [|j].
  - injection Hj as ->. rewrite Nat.add_0_r, assign_fields_other.
    + now apply obj_set_lookup_eq.
    + intros Hin. apply list_elem_of_lookup in Hin as [j' Hj'].
      apply (Hlast (S j')); [lia | exact Hj'].
  - replace (i + S j)%nat with (S i + j)%nat by lia.
    apply IH; [exact Hj | exact Hp |].
    intros j' Hlt. apply (Hlast (S j')). lia.
Qed.

Lemma assign_fields_dom headers i cols obj h :
  h ∈ dom (assign_fields headers i cols obj)
  <-> h ∈ dom obj \/ (h ∈ headers /\ h <> proto_key).
Proof.
  revert i obj. induction headers as [|h0 hs IH]; intros i obj.
  - cbn [assign_fields]. rewrite elem_of_nil. tauto.
  - cbn [assign_fields]. rewrite IH, obj_set_dom, elem_of_cons.
    split; [intros [[?|[-> ?]]|[? ?]] | intros [?|[[->|?] ?]]]; tauto.
Qed.

(** Only the cells under the headers are read. *)
Lemma assign_fields_ext headers i cols cols' obj :
  (forall j, (j < length headers)%nat -> cell cols (i + j) = cell cols' (i + j)) ->
  assign_fields headers i cols obj = assign_fields headers i cols' obj.
Proof.
  revert i obj. induction headers as [|h0 hs IH]; intros i obj H; [reflexivity|].
  cbn [assign_fields].
  rewrite <- (Nat.add_0_r i) at 2 4. rewrite (H 0%nat) by (cbn; lia).
  rewrite Nat.add_0_r. apply IH. intros j Hj.
  replace (S i + j)%nat with (i + S j)%nat by lia. apply H. cbn. lia.
Qed.

Lemma row_to_record_ext headers line line' :
  take (length headers) (tokens line') = take (length headers) (tokens line) ->
  row_to_record headers line' = row_to_record headers line.
Proof.
  intros H. unfold row_to_record. apply assign_fields_ext. intros j Hj.
  cbn [Nat.add]. rewrite !cell_pad.
  rewrite <- (cell_take (tokens line') (length headers) j Hj), H.
  now apply cell_take.
Qed.

Lemma parseCSV_rows text :
  parseCSV text
  = List.map (row_to_record (tokens (hd [] (split_lines (trim text)))))
             (tl (split_lines (trim text))).
Proof.
  unfold parseCSV. destruct (split_lines (trim text)) as [|l0 [|l1 ls]]; reflexivity.
Qed.
End ParserFacts.

(** What the parser does build: one record per line after the first, in
    line order; the keys of a record are the header's trimmed tokens other
    than [__proto__]; each such key is bound to the trimmed token under the
    last header of that name, and to the empty string when the line has no
    token there; tokens beyond the header count are never read. *)
Theorem parseCSV_records text :
  let lines := split_lines (trim text) in
  let headers := tokens (hd [] lines) in
  length (parseCSV text) = (length lines - 1)%nat
  /\ forall i line, tl lines !! i = Some line ->
       exists r, parseCSV text !! i = Some r
         /\ dom r =@{gset jsstring} list_to_set (filter (fun h => h <> proto_key) headers)
         /\ (forall j h, headers !! j = Some h -> h <> proto_key ->
               (forall j', (j < j')%nat -> headers !! j' <> Some h) ->
               r !! h = Some (cell (tokens line) j)
               /\ ((length (tokens line) <= j)%nat -> r !! h = Some []))
         /\ (forall line',
               take (length headers) (tokens line') = take (length headers) (tokens line) ->
               row_to_record headers line' = r).
Proof.
  intros lines headers. rewrite parseCSV_rows. fold lines headers. split.
  - rewrite length_map. destruct lines; cbn; lia.
  - intros i line Hi. exists (row_to_record headers line). split; [|split; [|split]].
    + rewrite list_lookup_fmap. fold (tl lines). now rewrite Hi.
    + apply set_eq. intros h. unfold row_to_record.
      rewrite assign_fields_dom, dom_empty_L, elem_of_list_to_set, list_elem_of_filter.
      rewrite elem_of_empty. tauto.
    + intros j h Hj Hp Hlast.
      assert (E : row_to_record headers line !! h = Some (cell (tokens line) j)).
      { unfold row_to_record.
        rewrite (assign_fields_lookup headers 0 _ ∅ j h Hj Hp Hlast).
        cbn [Nat.add]. now rewrite cell_pad. }
      split; [exact E|]. intros Hshort. now rewrite E, cell_missing.
    + intros line'. apply row_to_record_ext.
Qed.

(** A header named [__proto__] is never a key of a record. *)
Lemma proto_header_not_a_key (text : jsstring) (r : RowObject) :
  r ∈ parseCSV text -> r !! proto_key = None.
Proof.
  rewrite parseCSV_rows. intros H. apply list_elem_of_fmap in H as [line [-> _]].
  apply not_elem_of_dom. unfold row_to_record.
  rewrite assign_fields_dom, dom_empty_L, elem_of_empty. tauto.
Qed.

(** C3, on the code. The parser assigns [obj[h] = ...] for every header
    [h], and with a header named [__proto__] the assignment stores nothing:
    for the header [a,__proto__] and the data line [1,2] the one record has
    the key [a] with value [1] and no key [__proto__], so its key set is
    not the header's token set. *)
Theorem parseCSV_proto_header :
  let text := js "a,__proto__" ++ [10%N] ++ js "1,2" in
  let headers := tokens (hd [] (split_lines (trim text))) in
  headers = [js "a"; js "__proto__"]
  /\ exists r, parseCSV text = [r]
       /\ r !! js "a" = Some (js "1")
       /\ r !! js "__proto__" = None
       /\ dom r <> (list_to_set headers : gset jsstring).
Proof.
  intros text headers. split; [reflexivity|].
  exists (row_to_record headers (js "1,2")). split; [reflexivity|].
  split; [vm_compute; reflexivity|]. split; [reflexivity|].
  intros E.
  assert (H : js "__proto__" ∈ dom (row_to_record headers (js "1,2"))).
  { rewrite E. apply elem_of_list_to_set. subst headers. right. left. }
  apply elem_of_dom in H as [v Hv]. vm_compute in Hv. discriminate Hv.
Qed.

(** The specification's scenario: one row without expiry date. *)
Example parseCSV_water :
  let text := js "name,category,qty,expiry,note" ++ [13; 10]%N ++ js "Water,Water,10,-, " in
  exists r, parseCSV text = [r]
    /\ r !! js "name" = Some (js "Water") /\ r !! js "qty" = Some (js "10")
    /\ r !! js "expiry" = Some (js "-") /\ r !! js "note" = Some [].
Proof. eexists. split; [reflexivity|]. vm_compute. repeat split. Qed.

(** ** Sorting *)

Section SortFacts.
Context {A : Type} (cmp : A -> A -> Number).

Lemma sort_insert_perm x l : sort_insert cmp x l ≡ₚ x :: l.
Proof.
  induction l as [|y l IH]; [reflexivity|]. cbn [sort_insert].
  destruct (keeps_before cmp x y); [reflexivity|].
  rewrite IH. apply Permutation_swap.
Qed.

(** Sorting rearranges, it neither drops nor duplicates. *)
Lemma sort_perm l : sort cmp l ≡ₚ l.
Proof.
  induction l as [|x l IH]; [reflexivity|].
  cbn [sort foldr]. fold (sort cmp l). now rewrite sort_insert_perm, IH.
Qed.

(** When the comparator is the difference of integer keys on the elements
    at hand, the result is in ascending key order. *)
Context (key : A -> Z) (valid : A -> Prop).
Hypothesis keeps_before_key :
  forall x y, valid x -> valid y -> keeps_before cmp x y = (key x <=? key y).

Lemma sort_insert_sorted x l :
  valid x -> Forall valid l ->
  StronglySorted (fun a b => key a <= key b) l -> StronglySorted (fun a b => key a <= key b) (sort_insert cmp x l).
Proof.
  intros Vx Vl Hs. induction Hs as [|y l Hs IH Hy]; [repeat constructor|].
  apply Forall_cons in Vl as [Vy Vl]. cbn [sort_insert].
  rewrite keeps_before_key by assumption.
  destruct (Z.leb_spec (key x) (key y)) as [Hle|Hgt].
  - constructor; [now constructor|]. constructor; [exact Hle|].
    eapply Forall_impl; [exact Hy|]. intros z Hz. cbn in *. lia.
  - constructor; [now apply IH|].
    rewrite sort_insert_perm. constructor; [lia | exact Hy].
Qed.

Lemma sort_sorted l : Forall valid l -> StronglySorted (fun a b => key a <= key b) (sort cmp l).
Proof.
  induction 1 as [|x l Vx Vl IH]; [constructor|].
  cbn [sort foldr]. fold (sort cmp l).
  apply sort_insert_sorted; [exact Vx | now rewrite sort_perm | exact IH].
Qed.
End SortFacts.

Lemma StronglySorted_lookup_lt {A} (R : relation A) (l : list A) i j x y :
  StronglySorted R l -> (i < j)%nat -> l !! i = Some x -> l !! j = Some y -> R x y.
Proof.
  intros Hs. revert i j. induction Hs as [|z l Hs IH Hz]; intros i j Hij Hi Hj; [discriminate|].
  destruct j as [|j]; [lia|]. destruct i as [|i].
  - injection Hi as ->. cbn in Hj.
    eapply (proj1 (Forall_forall _ _) Hz). eapply list_elem_of_lookup_2. exact Hj.
  - cbn in Hi, Hj. apply (IH i j); [lia | exact Hi | exact Hj].
Qed.

(** ** Summary counts *)

Lemma status_partition (items : list Item) :
  length items
  = (count_status safe items + count_status soon items
     + count_status expired items + count_status noexpiry items)%nat.
Proof.
  unfold count_status. induction items as [|i l IH]; [reflexivity|].
  rewrite !filter_cons.
  repeat case_decide; unfold has_status in *; cbn [length];
    try congruence; try lia; destruct (status (_meta i)); congruence.
Qed.

(** C9. The items with status [safe], [soon], [expired] and [noexpiry]
    add up to all items: the three counters [renderAll] shows, plus the
    number of no-expiry items, equal the total it shows. *)
Theorem status_counts_sum env (items : list Item) (d : Dom) :
  exists total n_safe n_soon n_expired,
    totalCountEl (renderAll env items d) = Rendered total
    /\ safeCountEl (renderAll env items d) = Rendered n_safe
    /\ soonCountEl (renderAll env items d) = Rendered n_soon
    /\ expiredCountEl (renderAll env items d) = Rendered n_expired
    /\ total = length items
    /\ (n_safe + n_soon + n_expired + count_status noexpiry items = total)%nat.
Proof.
  exists (length items), (count_status safe items), (count_status soon items),
    (count_status expired items).
  repeat split. symmetry. apply status_partition.
Qed.

Lemma apply_filter_no_match sel (items : list Item) :
  sel <> [] -> sel <> js "all" ->
  (forall i, i ∈ items -> fields i !! key_category <> Some sel) ->
  apply_filter sel items = [].
Proof.
  intros H1 H2 Hno. unfold apply_filter.
  rewrite (bool_decide_eq_false_2 _ H1), (bool_decide_eq_false_2 _ H2). cbn [negb andb].
  induction items as [|i l IH]; [reflexivity|].
  rewrite filter_cons, decide_False.
  - apply IH. intros x Hx. apply Hno. now right.
  - apply Hno. now left.
Qed.

Lemma apply_sort_nil env mode : apply_sort env mode [] = [].
Proof. unfold apply_sort. repeat case_bool_decide; reflexivity. Qed.

Lemma count_status_tally st (items : list Item) :
  count_status st items = status_tally st items.
Proof.
  unfold count_status. induction items as [|i l IH]; [reflexivity|].
  rewrite filter_cons. cbn [status_tally]. unfold has_status at 1.
  destruct (decide (status (_meta i) = st)); cbn [length]; rewrite IH; reflexivity.
Qed.

(** C4. Whatever the filter selector and the sort mode, the four counters
    are those of the whole item sequence: the total is its length and the
    others are the numbers of its items with status [safe], [soon] and
    [expired], counted item by item. A category that no item has leaves
    the listing empty and the counters as they are for any other selection. *)
Theorem summary_counts_unfiltered env (items : list Item) (d : Dom) :
  let v := renderAll env items d in
  totalCountEl v = Rendered (length items)
  /\ safeCountEl v = Rendered (status_tally safe items)
  /\ soonCountEl v = Rendered (status_tally soon items)
  /\ expiredCountEl v = Rendered (status_tally expired items)
  /\ (forall d', totalCountEl (renderAll env items d') = totalCountEl v
                 /\ safeCountEl (renderAll env items d') = safeCountEl v
                 /\ soonCountEl (renderAll env items d') = soonCountEl v
                 /\ expiredCountEl (renderAll env items d') = expiredCountEl v)
  /\ (filterSelect_value d <> [] -> filterSelect_value d <> js "all" ->
      (forall i, i ∈ items -> fields i !! key_category <> Some (filterSelect_value d)) ->
      apply_sort env (sortSelect_value d) (apply_filter (filterSelect_value d) items) = []
      /\ listColLeft v = Rendered [] /\ listColRight v = Rendered []).
Proof.
  intros v. subst v. cbn [renderAll totalCountEl safeCountEl soonCountEl expiredCountEl
                          listColLeft listColRight].
  rewrite <- !count_status_tally.
  repeat split; rewrite apply_filter_no_match, apply_sort_nil by assumption; reflexivity.
Qed.

(** ** Urgent items *)

(** On a classified record the second test of the urgent filter adds
    nothing to the first. *)
Lemma urgent_iff_expired (env : Env) (r : RowObject) :
  is_urgentb (make_item env r) = true <-> has_status expired (make_item env r).
Proof.
  unfold is_urgentb, has_status, make_item. cbn [_meta].
  pose proof (computeExpiryInfo_status env (r !! key_expiry)) as H.
  destruct (computeExpiryInfo env (r !! key_expiry)) as [[n|] st]; cbn [daysLeft status] in *.
  - subst st. unfold classify_days. destruct (num_le n (Num 30)).
    + rewrite orb_true_r. split; reflexivity.
    + rewrite orb_false_r. apply bool_decide_eq_true.
  - rewrite orb_false_r. apply bool_decide_eq_true.
Qed.

Lemma urgent_filter_classified (env : Env) (raw : list RowObject) :
  filter (fun i => is_urgentb i = true) (classify env raw)
  = filter (has_status expired) (classify env raw).
Proof.
  induction raw as [|r raw IH]; [reflexivity|].
  cbn [classify List.map]. fold (classify env raw). rewrite !filter_cons, IH.
  pose proof (urgent_iff_expired env r) as [H1 H2].
  repeat case_decide; tauto.
Qed.

Lemma filter_nil_iff {A} (P : A -> Prop) `{forall x, Decision (P x)} (l : list A) :
  filter P l = [] <-> forall x, x ∈ l -> ~ P x.
Proof.
  split.
  - intros E x Hx Px. eapply filter_nil_not_elem_of; eassumption.
  - intros Hn. induction l as [|x l IH]; [reflexivity|].
    rewrite filter_cons, decide_False by (apply Hn; now left).
    apply IH. intros y Hy. apply Hn. now right.
Qed.

(** C5. On every classified item sequence the urgent subset is exactly
    the items with status [expired]: the same items with the same
    multiplicities, hence a subset of them, and it is empty (the 'no urgent
    items' note is shown) iff no item has status [expired]. *)
Theorem urgent_items_are_expired (env : Env) (raw : list RowObject) :
  let items := classify env raw in
  urgent_items items ≡ₚ filter (has_status expired) items
  /\ (forall i, i ∈ urgent_items items <-> i ∈ items /\ status (_meta i) = expired)
  /\ (urgent_items items = [] <-> forall i, i ∈ items -> status (_meta i) <> expired)
  /\ (forall d, urgentList (renderAll env items d) = Rendered NoUrgentNote
                <-> forall i, i ∈ items -> status (_meta i) <> expired).
Proof.
  intros items.
  assert (P : urgent_items items ≡ₚ filter (has_status expired) items).
  { unfold urgent_items, items. now rewrite sort_perm, urgent_filter_classified. }
  assert (N : urgent_items items = [] <-> forall i, i ∈ items -> status (_meta i) <> expired).
  { rewrite <- (filter_nil_iff (has_status expired) items). split.
    - intros E. rewrite E in P. symmetry in P. now apply Permutation_nil_r in P.
    - intros E. rewrite E in P. now apply Permutation_nil_r in P. }
  split; [exact P|]. split; [|split; [exact N|]].
  - intros i. rewrite P, list_elem_of_filter. unfold has_status. tauto.
  - intros d. rewrite <- N. cbn [renderAll urgentList].
    destruct (urgent_items items) as [|u us]; cbn [length Nat.eqb]; split; intros E;
      try reflexivity; discriminate E.
Qed.

(** ** Sorting by expiry *)

Lemma keeps_before_expiry x y :
  valid_days x -> valid_days y ->
  keeps_before cmp_expiry x y = (expiry_rank x <=? expiry_rank y).
Proof.
  unfold valid_days, keeps_before, cmp_expiry, expiry_key, expiry_rank.
  intros Vx Vy.
  destruct (daysLeft (_meta x)) as [[|a]|], (daysLeft (_meta y)) as [[|b]|];
    try congruence; cbn [num_sub];
    apply eq_true_iff_eq; rewrite !Z.leb_le; lia.
Qed.

Lemma apply_sort_expiry env (l : list Item) :
  apply_sort env (js "expiry") l = sort cmp_expiry l.
Proof. reflexivity. Qed.

Lemma apply_filter_Forall (P : Item -> Prop) sel (items : list Item) :
  Forall P items -> Forall P (apply_filter sel items).
Proof.
  intros H. unfold apply_filter. destruct (_ && _); [|exact H].
  apply Forall_forall. intros x Hx. apply list_elem_of_filter in Hx as [_ Hx].
  revert x Hx. now apply Forall_forall.
Qed.

(** C6, as amended. When every dated item has a valid (non-NaN)
    [daysLeft], the 'expiry' mode rearranges the filtered items into
    ascending order of [daysLeft] with null counted as 99999; so every
    no-expiry item comes after every dated item whose [daysLeft] is below
    99999, whatever the original order. *)
Theorem sort_expiry_order env sel (items : list Item) :
  Forall valid_days items ->
  let out := apply_sort env (js "expiry") (apply_filter sel items) in
  out ≡ₚ apply_filter sel items
  /\ StronglySorted (fun a b => expiry_rank a <= expiry_rank b) out
  /\ forall i j x y n,
       out !! i = Some x -> out !! j = Some y ->
       daysLeft (_meta x) = Some (Num n) -> n < 99999 ->
       daysLeft (_meta y) = None ->
       (i < j)%nat.
Proof.
  intros V out. subst out. rewrite apply_sort_expiry.
  assert (S : StronglySorted (fun a b => expiry_rank a <= expiry_rank b)
                (sort cmp_expiry (apply_filter sel items))).
  { apply (sort_sorted cmp_expiry expiry_rank valid_days keeps_before_expiry).
    now apply apply_filter_Forall. }
  split; [apply sort_perm|]. split; [exact S|].
  intros i j x y n Hi Hj Hx Hn Hy.
  destruct (decide (i < j)%nat) as [|Hge]; [assumption|exfalso].
  destruct (decide (i = j)) as [->|Hne].
  - rewrite Hi in Hj. injection Hj as ->. congruence.
  - pose proof (StronglySorted_lookup_lt _ _ j i y x S ltac:(lia) Hj Hi) as Hle.
    cbn in Hle. unfold expiry_rank in Hle. rewrite Hx, Hy in Hle. lia.
Qed.

Lemma sort_expiry_order_witness :
  let out := apply_sort sample_env (js "expiry")
               (apply_filter (js "all")
                  (sample_items ["water,-"; "rice,2024-03-01"; "gauze,2024-01-15"]%string)) in
  List.map (fun i => daysLeft (_meta i)) out = [Some (Num 14); Some (Num 60); None]
  /\ forall i j x y n,
       out !! i = Some x -> out !! j = Some y ->
       daysLeft (_meta x) = Some (Num n) -> n < 99999 ->
       daysLeft (_meta y) = None ->
       (i < j)%nat.
Proof.
  intros out.
  assert (V : Forall valid_days
                (sample_items ["water,-"; "rice,2024-03-01"; "gauze,2024-01-15"]%string)).
  { apply (bool_decide_unpack _). vm_compute. exact I. }
  destruct (sort_expiry_order sample_env (js "all") _ V) as (_ & _ & H).
  split; [vm_compute; reflexivity | exact H].
Defined.

(** C6, the claim as stated fails for a date more than 99999 days away:
    the item without expiry date is moved in front of it. *)
Lemma sort_expiry_far_date :
  let items := sample_items ["vault,2400-01-01"; "water,-"]%string in
  let out := apply_sort sample_env (js "expiry") (apply_filter (js "all") items) in
  List.map (fun i => daysLeft (_meta i)) items = [Some (Num 137331); None]
  /\ exists x y, out !! 0%nat = Some x /\ out !! 1%nat = Some y
       /\ daysLeft (_meta x) = None /\ daysLeft (_meta y) = Some (Num 137331).
Proof.
  intros items out. split; [vm_compute; reflexivity|].
  assert (H : List.map (fun i => daysLeft (_meta i)) out = [None; Some (Num 137331)])
    by (vm_compute; reflexivity).
  clearbody out. destruct out as [|x [|y [|z r]]]; try discriminate H.
  injection H as Hx Hy. exists x, y. repeat split; assumption.
Qed.

(** ** Loading and refreshing *)

(** The refresh handler catches a failed fetch: one notification, the
    items and the rendered dashboard stay, the button is enabled again. *)
Lemma refresh_fetch_failure_caught (env : Env) (st : State) :
  let st' := fst (refresh_click env FetchFails st) in
  snd (refresh_click env FetchFails st) = Fulfilled tt
  /\ alerts st' = AlertRefreshFailed :: alerts st
  /\ items st' = items st
  /\ totalCountEl (page st') = totalCountEl (page st)
  /\ safeCountEl (page st') = safeCountEl (page st)
  /\ soonCountEl (page st') = soonCountEl (page st)
  /\ expiredCountEl (page st') = expiredCountEl (page st)
  /\ urgentList (page st') = urgentList (page st)
  /\ listColLeft (page st') = listColLeft (page st)
  /\ listColRight (page st') = listColRight (page st)
  /\ refreshBtn_disabled (page st') = false.
Proof. repeat split. Qed.

(** C7, on the code. A failed fetch during [init] is not caught: the
    state is left exactly as it was, so no notification is shown, and the
    promise of [init] is rejected with nothing to handle it. The refresh
    handler does catch the same failure and notifies; on both paths the
    loaded items stay as they were. *)
Theorem init_fetch_failure_unhandled (env : Env) (st : State) :
  init env FetchFails st = (st, Rejected)
  /\ alerts (fst (init env FetchFails st)) = alerts st
  /\ items (fst (init env FetchFails st)) = items st
  /\ snd (refresh_click env FetchFails st) = Fulfilled tt
  /\ alerts (fst (refresh_click env FetchFails st)) = AlertRefreshFailed :: alerts st
  /\ items (fst (refresh_click env FetchFails st)) = items st.
Proof. repeat split. Qed.

(** A document without data rows on either path: both complete without a
    notification; the refresh shows zero counts and the 'no urgent items'
    note over an empty item list; [init] returns before rendering and
    leaves the items and every element of the page as they were. *)
Lemma empty_dataset_terminal (env : Env) (text : jsstring) (st : State) :
  parseCSV text = [] ->
  init env (FetchText text) st = (st, Fulfilled tt)
  /\ snd (refresh_click env (FetchText text) st) = Fulfilled tt
  /\ items (fst (refresh_click env (FetchText text) st)) = []
  /\ alerts (fst (refresh_click env (FetchText text) st)) = alerts st
  /\ shows_empty_dashboard (page (fst (refresh_click env (FetchText text) st)))
  /\ refreshBtn_disabled (page (fst (refresh_click env (FetchText text) st))) = false.
Proof.
  intros E. unfold init, refresh_click, fetchAndParseCSV, shows_empty_dashboard.
  cbn [CSV_URL_is_placeholder]. rewrite E. repeat split.
Qed.

(** The starting state of the examples is what a refresh of an empty
    document produces. *)
Lemma empty_rendered_state_reached (env : Env) (st : State) :
  alerts st = [] -> console_errors st = 0%nat ->
  fst (refresh_click env (FetchText []) st)
  = empty_rendered_state (filterSelect_value (page st)) (sortSelect_value (page st)).
Proof.
  intros Ha Hc.
  assert (F : forall s f, apply_sort env s (apply_filter f []) = []).
  { intros s f. unfold apply_filter. destruct (_ && _); [rewrite filter_nil|];
      apply apply_sort_nil. }
  destruct st as [its pg al ce]. cbn in Ha, Hc. subst al ce.
  unfold refresh_click, fetchAndParseCSV, load_and_render, renderAll, empty_rendered_state.
  cbn -[apply_sort apply_filter]. rewrite !F. reflexivity.
Qed.

(** C8, on the code. [init] returns at its guard for an empty result
    before it replaces the items and renders. Whatever the page was
    before: once a sheet with one row has been loaded by a refresh, an
    [init] that then receives a header-only document completes without
    error but leaves the one item and the total of 1 on the dashboard,
    not zero counts and the 'no urgent items' note; the refresh handler
    on the same document empties the items and shows the empty dashboard. *)
Theorem init_empty_dataset_keeps_old_dashboard (st0 : State) :
  let loaded := fst (refresh_click sample_env
                       (FetchText (sample_text ["rice,2024-03-01"]%string)) st0) in
  let header_only := sample_text [] in
  parseCSV header_only = []
  /\ totalCountEl (page loaded) = Rendered 1%nat
  /\ init sample_env (FetchText header_only) loaded = (loaded, Fulfilled tt)
  /\ length (items (fst (init sample_env (FetchText header_only) loaded))) = 1%nat
  /\ ~ shows_empty_dashboard (page (fst (init sample_env (FetchText header_only) loaded)))
  /\ items (fst (refresh_click sample_env (FetchText header_only) loaded)) = []
  /\ shows_empty_dashboard
       (page (fst (refresh_click sample_env (FetchText header_only) loaded))).
Proof.
  intros loaded header_only.
  assert (E : parseCSV header_only = []) by (vm_compute; reflexivity).
  assert (T : totalCountEl (page loaded) = Rendered 1%nat) by (vm_compute; reflexivity).
  destruct (empty_dataset_terminal sample_env header_only loaded E)
    as (Hinit & _ & Hitems & _ & Hshow & _).
  split; [exact E|]. split; [exact T|]. split; [exact Hinit|].
  rewrite Hinit. cbn [fst]. split; [vm_compute; reflexivity|].
  split; [|split; [exact Hitems | exact Hshow]].
  intros (H & _). rewrite T in H. discriminate H.
Qed.

(** ** Scenarios *)

(** One row whose expiry field is ["-"]: one record, status [noexpiry],
    no urgent item, total 1 and the other counters 0. *)
Example scenario_no_expiry :
  let text := js "name,category,qty,expiry,note" ++ [10%N] ++ js "Water,Water,10,-," in
  let st := fst (refresh_click sample_env (FetchText text) (empty_rendered_state (js "all") [])) in
  List.map (fun i => status (_meta i)) (items st) = [noexpiry]
  /\ totalCountEl (page st) = Rendered 1%nat
  /\ safeCountEl (page st) = Rendered 0%nat
  /\ soonCountEl (page st) = Rendered 0%nat
  /\ expiredCountEl (page st) = Rendered 0%nat
  /\ urgentList (page st) = Rendered NoUrgentNote.
Proof. vm_compute. repeat split. Qed.

(** A date 20 days in the past: [expired], a negative [daysLeft], and an
    urgent row labelled as overdue by 20 days. *)
Example scenario_past_date :
  let st := fst (init sample_env (FetchText (sample_text ["rice,2023-12-12"]%string))
                   (empty_rendered_state (js "all") [])) in
  List.map _meta (items st) = [{| daysLeft := Some (Num (-20)); status := expired |}]
  /\ exists i, urgentList (page st) = Rendered (UrgentRows [(i, LabelOverdue (Num 20))]).
Proof. split; [vm_compute; reflexivity|]. eexists. vm_compute. reflexivity. Qed.

(** * Further properties of the code *)

(** ** Classifier *)

(** With three components the result is a function of what [parseInt]
    makes of them. *)
Lemma computeExpiryInfo_three (env : Env) s a b c :
  split hyphen s = [a; b; c] ->
  computeExpiryInfo env (Some s) =
    if existsb isNaN [parseInt a; parseInt b; parseInt c] then no_expiry
    else
      let n := ceil_days
                 (num_sub (setHours0 env (new_Date env (parseInt a)
                                            (num_sub (parseInt b) (Num 1)) (parseInt c)))
                          (setHours0 env (new_Date_now env))) in
      {| daysLeft := Some n; status := classify_days n |}.
Proof.
  intros Hs.
  destruct (three_parts_not_hyphen s) as [Hne Htrim]; [now rewrite Hs|].
  unfold computeExpiryInfo.
  rewrite (bool_decide_eq_false_2 _ Hne), (bool_decide_eq_false_2 _ Htrim).
  rewrite Hs. reflexivity.
Qed.

(** The result depends on the date string only through the three numbers
    [parseInt] reads: leading white space, a plus sign, leading zeros and
    anything after the digits of a component make no difference. *)
Theorem computeExpiryInfo_by_numbers (env : Env) s s' a b c a' b' c' :
  split hyphen s = [a; b; c] -> split hyphen s' = [a'; b'; c'] ->
  parseInt a = parseInt a' -> parseInt b = parseInt b' -> parseInt c = parseInt c' ->
  computeExpiryInfo env (Some s) = computeExpiryInfo env (Some s').
Proof.
  intros Hs Hs' Ha Hb Hc.
  rewrite (computeExpiryInfo_three env s a b c Hs),
          (computeExpiryInfo_three env s' a' b' c' Hs').
  now rewrite Ha, Hb, Hc.
Qed.

Lemma computeExpiryInfo_by_numbers_witness :
  computeExpiryInfo taipei_noon (Some (js " 2024-+01 -031st"))
  = computeExpiryInfo taipei_noon (Some (js "2024-1-31")).
Proof.
  apply (computeExpiryInfo_by_numbers taipei_noon
           (js " 2024-+01 -031st") (js "2024-1-31")
           (js " 2024") (js "+01 ") (js "031st") (js "2024") (js "1") (js "31"));
    reflexivity.
Defined.

(** A year written with one or two digits is read as a year of the 1900s:
    the result is that of the four-digit year 1900 + y. *)
Theorem computeExpiryInfo_two_digit_year (env : Env) s s' a b c a' b' c' y :
  split hyphen s = [a; b; c] -> split hyphen s' = [a'; b'; c'] ->
  parseInt a = Num y -> 0 <= y <= 99 -> parseInt a' = Num (1900 + y) ->
  parseInt b = parseInt b' -> parseInt c = parseInt c' ->
  computeExpiryInfo env (Some s) = computeExpiryInfo env (Some s').
Proof.
  intros Hs Hs' Ha Hy Ha' Hb Hc.
  rewrite (computeExpiryInfo_three env s a b c Hs),
          (computeExpiryInfo_three env s' a' b' c' Hs').
  rewrite Ha, Ha', <- Hb, <- Hc. cbn [existsb isNaN orb].
  assert (E : forall m d, new_Date env (Num y) m d = new_Date env (Num (1900 + y)) m d).
  { intros [|m] [|d]; try reflexivity. unfold new_Date, full_year.
    replace ((0 <=? y) && (y <=? 99)) with true by (symmetry; apply andb_true_iff; lia).
    replace ((0 <=? 1900 + y) && (1900 + y <=? 99)) with false
      by (symmetry; apply andb_false_iff; right; apply Z.leb_gt; lia).
    reflexivity. }
  now rewrite E.
Qed.

Lemma computeExpiryInfo_two_digit_year_witness :
  computeExpiryInfo taipei_noon (Some (js "24-06-01"))
  = computeExpiryInfo taipei_noon (Some (js "1924-06-01"))
  /\ computeExpiryInfo taipei_noon (Some (js "24-06-01"))
     = {| daysLeft := Some (Num (-36373)); status := expired |}.
Proof.
  split; [|vm_compute; reflexivity].
  apply (computeExpiryInfo_two_digit_year taipei_noon
           (js "24-06-01") (js "1924-06-01")
           (js "24") (js "06") (js "01") (js "1924") (js "06") (js "01") 24);
    try reflexivity. lia.
Defined.

(** ** Parser *)

Lemma split_lines_length s : length (split_lines s) = S (occurrences 10%N s).
Proof.
  unfold occurrences. induction s as [|c r IH]; [reflexivity|].
  cbn [split_lines]. rewrite filter_cons.
  destruct (N.eqb_spec c 10) as [->|Hne].
  - rewrite decide_True by reflexivity. cbn. now rewrite IH.
  - rewrite decide_False by congruence.
    destruct ((c =? 13)%N && starts_with_lf r); [exact IH|].
    destruct (split_lines r) as [|p ps]; cbn in *; lia.
Qed.

Lemma occurrences_zero sep s : occurrences sep s = 0%nat <-> sep ∉ s.
Proof.
  unfold occurrences. induction s as [|c r IH]; [cbn; split; [intros _; apply not_elem_of_nil | reflexivity]|].
  rewrite filter_cons, not_elem_of_cons. destruct (decide (sep = c)) as [->|Hne].
  - cbn. split; [discriminate | intros [H _]; contradiction].
  - rewrite IH. tauto.
Qed.

(** No record exactly when the trimmed text has no line feed. *)
Lemma parseCSV_empty_iff text : parseCSV text = [] <-> 10%N ∉ trim text.
Proof.
  rewrite <- occurrences_zero. unfold parseCSV.
  pose proof (split_lines_length (trim text)) as L.
  destruct (split_lines (trim text)) as [|l0 [|l1 ls]]; cbn in *.
  - discriminate L.
  - split; [intros _; lia | reflexivity].
  - split; [discriminate | intros E; rewrite E in L; discriminate L].
Qed.

(** The parser returns one record for every line feed of the trimmed text,
    so every line after the first yields a record, a blank line between
    two others like any other; and it returns no record exactly when the
    trimmed text has no line feed: an empty or blank document, or a header
    line alone. *)
Theorem parseCSV_record_count text :
  length (parseCSV text) = occurrences 10%N (trim text)
  /\ (parseCSV text = [] <-> 10%N ∉ trim text).
Proof.
  split; [|apply parseCSV_empty_iff].
  rewrite parseCSV_rows, length_map.
  pose proof (split_lines_length (trim text)) as L.
  destruct (split_lines (trim text)) as [|l0 ls]; cbn [tl length] in *; lia.
Qed.

(** Without a column named '到期日(YYYY-MM-DD)' every row is read as having
    no expiry date: each item is [{daysLeft: null, status: noexpiry}], the
    urgent list is empty, and the three status counters are zero whatever
    the other columns hold. *)
Theorem missing_expiry_column (env : Env) text :
  key_expiry ∉ tokens (hd [] (split_lines (trim text))) ->
  let items := classify env (parseCSV text) in
  Forall (fun i => _meta i = no_expiry) items
  /\ urgent_items items = []
  /\ count_status safe items = 0%nat /\ count_status soon items = 0%nat
  /\ count_status expired items = 0%nat
  /\ count_status noexpiry items = length items.
Proof.
  intros Hno items.
  assert (F : Forall (fun i => _meta i = no_expiry) items).
  { subst items. rewrite parseCSV_rows. unfold classify.
    apply Forall_forall. intros i Hi.
    apply list_elem_of_fmap in Hi as [r [-> Hr]].
    apply list_elem_of_fmap in Hr as [line [-> _]].
    unfold make_item, row_to_record. cbn [_meta].
    now rewrite assign_fields_other, lookup_empty by exact Hno. }
  assert (C : forall st, st <> noexpiry -> count_status st items = 0%nat).
  { intros st Hst. unfold count_status. clearbody items.
    induction F as [|i l Hi _ IH]; [reflexivity|].
    rewrite filter_cons, decide_False; [exact IH|].
    unfold has_status. rewrite Hi. cbn. congruence. }
  split; [exact F|]. split.
  - unfold urgent_items. clear C. clearbody items.
    replace (filter (fun i => is_urgentb i = true) items) with (@nil Item); [reflexivity|].
    induction F as [|i l Hi _ IH]; [reflexivity|].
    rewrite filter_cons, decide_False; [exact IH|].
    destruct i as [f m]. cbn in Hi. subst m. intros H. vm_compute in H. discriminate H.
  - pose proof (status_partition items) as P.
    rewrite !C in P by discriminate. rewrite !C by discriminate.
    repeat split. lia.
Qed.

Lemma missing_expiry_column_witness :
  let text := js "name,category,qty,expiry,note" ++ [10%N] ++ js "Rice,Food,2,2020-01-01," in
  List.map _meta (classify sample_env (parseCSV text)) = [no_expiry]
  /\ urgent_items (classify sample_env (parseCSV text)) = [].
Proof.
  intros text.
  assert (H : key_expiry ∉ tokens (hd [] (split_lines (trim text)))).
  { apply (bool_decide_unpack _). vm_compute. exact I. }
  destruct (missing_expiry_column sample_env text H) as (F & U & _).
  split; [|exact U].
  clear U. set (l := classify sample_env (parseCSV text)) in *.
  assert (L : length l = 1%nat) by (vm_compute; reflexivity).
  clearbody l. destruct l as [|i [|]]; try discriminate L.
  apply Forall_cons in F as [E _]. cbn [List.map]. now rewrite E.
Defined.

(** *** Joining and splitting *)

Section SplitJoin.
Implicit Types (s p rest : jsstring) (parts : list jsstring) (sep : N).

Lemma split_no_sep sep p : sep ∉ p -> split sep p = [p].
Proof.
  induction p as [|c p IH]; [reflexivity|]. intros H.
  apply not_elem_of_cons in H as [Hc Hp]. cbn [split].
  rewrite (proj2 (N.eqb_neq c sep)) by congruence. now rewrite IH.
Qed.

Lemma split_app_sep sep p rest :
  sep ∉ p -> split sep (p ++ sep :: rest) = p :: split sep rest.
Proof.
  induction p as [|c p IH]; intros H.
  - cbn. now rewrite N.eqb_refl.
  - apply not_elem_of_cons in H as [Hc Hp]. cbn [app split].
    rewrite (proj2 (N.eqb_neq c sep)) by congruence. now rewrite IH.
Qed.

(** Splitting undoes joining when no part contains the separator. *)
Lemma split_join sep parts :
  parts <> [] -> Forall (fun p => sep ∉ p) parts -> split sep (join [sep] parts) = parts.
Proof.
  induction parts as [|p [|p' ps] IH]; intros Hne F; [contradiction| |].
  - apply Forall_cons in F as [Hp _]. cbn [join]. now apply split_no_sep.
  - apply Forall_cons in F as [Hp F].
    change (join [sep] (p :: p' :: ps)) with (p ++ sep :: join [sep] (p' :: ps)).
    rewrite split_app_sep by exact Hp. f_equal. now apply IH.
Qed.

Lemma starts_with_lf_app p rest :
  p <> [] -> 10%N ∉ p -> starts_with_lf (p ++ rest) = false.
Proof.
  destruct p as [|c p]; [contradiction|]. intros _ H.
  apply not_elem_of_cons in H as [Hc _]. cbn. apply N.eqb_neq. congruence.
Qed.

Lemma split_lines_no_lf p : 10%N ∉ p -> split_lines p = [p].
Proof.
  induction p as [|c p IH]; [reflexivity|]. intros H.
  pose proof H as H'. apply not_elem_of_cons in H' as [Hc Hp]. cbn [split_lines].
  rewrite (proj2 (N.eqb_neq c 10)) by congruence.
  replace (starts_with_lf p) with false.
  - rewrite andb_false_r. now rewrite IH.
  - destruct p as [|c' p]; [reflexivity|]. cbn. symmetry. apply N.eqb_neq.
    apply not_elem_of_cons in Hp as [Hc' _]. congruence.
Qed.

(** A line feed after [p] closes the line [p], unless [p] ends in a
    carriage return, which the separator would swallow. *)
Lemma split_lines_app_lf p rest :
  10%N ∉ p -> last p <> Some 13%N ->
  split_lines (p ++ 10%N :: rest) = p :: split_lines rest.
Proof.
  induction p as [|c p IH]; intros H L; [reflexivity|].
  apply not_elem_of_cons in H as [Hc Hp]. cbn [app split_lines].
  rewrite (proj2 (N.eqb_neq c 10)) by congruence.
  destruct p as [|c' p].
  - cbn [app starts_with_lf]. rewrite N.eqb_refl, andb_true_r.
    destruct (N.eqb_spec c 13) as [->|_]; [now contradiction L|].
    cbn [app] in IH. now rewrite IH.
  - rewrite (starts_with_lf_app (c' :: p)), andb_false_r by (assumption || discriminate).
    rewrite IH; [reflexivity | exact Hp | exact L].
Qed.

(** A carriage return and line feed after [p] close the line [p]. *)
Lemma split_lines_app_crlf p rest :
  10%N ∉ p -> split_lines (p ++ 13%N :: 10%N :: rest) = p :: split_lines rest.
Proof.
  induction p as [|c p IH]; intros H.
  - cbn. reflexivity.
  - apply not_elem_of_cons in H as [Hc Hp]. cbn [app split_lines].
    rewrite (proj2 (N.eqb_neq c 10)) by congruence.
    replace (starts_with_lf (p ++ 13%N :: 10%N :: rest)) with false.
    + rewrite andb_false_r. now rewrite IH.
    + destruct p as [|c' p]; [reflexivity|]. cbn. symmetry. apply N.eqb_neq.
      apply not_elem_of_cons in Hp as [Hc' _]. congruence.
Qed.

Lemma split_lines_join eol (linez : list jsstring) :
  eol = [10%N] \/ eol = [13; 10]%N ->
  linez <> [] ->
  Forall (fun l => (10%N ∉ l) /\ last l <> Some 13%N) linez ->
  split_lines (join eol linez) = linez.
Proof.
  intros Heol. induction linez as [|l [|l' ls] IH]; intros Hne F; [contradiction| |].
  - apply Forall_cons in F as [[Hl _] _]. cbn [join]. now apply split_lines_no_lf.
  - apply Forall_cons in F as [[Hl HL] F].
    change (join eol (l :: l' :: ls)) with (l ++ eol ++ join eol (l' :: ls)).
    destruct Heol as [-> | ->]; cbn [app].
    + rewrite split_lines_app_lf by assumption. f_equal. now apply IH.
    + rewrite split_lines_app_crlf by assumption. f_equal. now apply IH.
Qed.
End SplitJoin.

Section TrimFacts.
Implicit Types (s : jsstring).

Lemma trimStart_head s c r : trimStart s = c :: r -> is_ws c = false.
Proof.
  induction s as [|x s IH]; [discriminate|]. cbn [trimStart].
  destruct (is_ws x) eqn:W; [exact IH|]. intros E. injection E as <- _. exact W.
Qed.

Lemma trimStart_id s :
  (forall c, head s = Some c -> is_ws c = false) -> trimStart s = s.
Proof. destruct s as [|x s]; [reflexivity|]. intros H. cbn. now rewrite (H x). Qed.

Lemma trimStart_length s : (length (trimStart s) <= length s)%nat.
Proof.
  induction s as [|x s IH]; [reflexivity|]. cbn [trimStart].
  destruct (is_ws x); cbn [length]; lia.
Qed.

Lemma trimEnd_length s : (length (trimEnd s) <= length s)%nat.
Proof.
  unfold trimEnd. rewrite length_rev.
  etransitivity; [apply trimStart_length|]. now rewrite length_rev.
Qed.

(** A string is its own trim exactly when it has no white space at
    either end. *)
Lemma trim_tight s : trim s = s <-> tight s.
Proof.
  unfold tight. split.
  - intros E. split.
    + intros c Hc. destruct s as [|x s]; [discriminate|]. injection Hc as ->.
      destruct (is_ws c) eqn:W; [exfalso|reflexivity].
      assert (L : (length (trim (c :: s)) <= length s)%nat).
      { unfold trim. etransitivity; [apply trimEnd_length|].
        cbn [trimStart]. rewrite W. apply trimStart_length. }
      rewrite E in L. cbn in L. lia.
    + intros c Hc. apply last_Some in Hc as [r ->].
      assert (R : trimStart (rev (trimStart (r ++ [c]))) = c :: rev r).
      { rewrite <- (rev_involutive (trimStart _)).
        change (rev (trimStart (rev (trimStart (r ++ [c]))))) with (trim (r ++ [c])).
        rewrite E, rev_app_distr. reflexivity. }
      exact (trimStart_head _ _ _ R).
  - intros [Hh Hl]. unfold trim. rewrite (trimStart_id s Hh).
    unfold trimEnd. rewrite trimStart_id; [apply rev_involutive|].
    intros c Hc. apply Hl. destruct s as [|x s] using rev_ind; [discriminate|].
    rewrite rev_app_distr in Hc. injection Hc as ->. apply last_snoc.
Qed.

Lemma is_ws_comma : is_ws comma = false.
Proof. reflexivity. Qed.

Lemma join_cons_cons (sep : jsstring) p p' (ps : list jsstring) :
  join sep (p :: p' :: ps) = p ++ sep ++ join sep (p' :: ps).
Proof. reflexivity. Qed.

Lemma join_cells_no_lf (cells : list jsstring) :
  Forall clean_cell cells -> 10%N ∉ join [comma] cells.
Proof.
  induction cells as [|c [|c' cs] IH]; intros F.
  - apply not_elem_of_nil.
  - apply Forall_cons in F as [(_ & _ & H) _]. exact H.
  - apply Forall_cons in F as [(_ & _ & H) F]. rewrite join_cons_cons.
    rewrite !elem_of_app, list_elem_of_singleton. intros [?|[E|?]].
    + contradiction.
    + discriminate E.
    + now apply IH.
Qed.

Lemma join_cells_tight (cells : list jsstring) :
  Forall clean_cell cells -> tight (join [comma] cells).
Proof.
  induction cells as [|c [|c' cs] IH]; intros F.
  - split; discriminate.
  - apply Forall_cons in F as [(T & _) _]. now apply trim_tight.
  - apply Forall_cons in F as [(T & _) F]. apply trim_tight in T as [Th Tl].
    destruct (IH F) as [_ IHl]. rewrite join_cons_cons. split.
    + intros x. rewrite head_app. destruct (head c) eqn:Hc.
      * intros E. injection E as <-. now apply Th.
      * intros E. cbn in E. injection E as <-. reflexivity.
    + intros x. cbn [app]. rewrite last_app_cons, last_cons.
      destruct (last (join [comma] (c' :: cs))) eqn:HL.
      * intros E. injection E as <-. now apply IHl.
      * intros E. injection E as <-. reflexivity.
Qed.

Lemma tokens_join (cells : list jsstring) :
  cells <> [] -> Forall clean_cell cells -> tokens (join [comma] cells) = cells.
Proof.
  intros Hne F. unfold tokens. rewrite split_join.
  - induction F as [|c cs (T & _) _ IH]; [reflexivity|].
    cbn [List.map]. rewrite T. f_equal. destruct cs; [reflexivity|]. now apply IH.
  - exact Hne.
  - eapply Forall_impl; [exact F|]. intros c (_ & H & _). exact H.
Qed.

Lemma join_lines_tight (eol : jsstring) (linez : list jsstring) l0 ll :
  Forall tight linez ->
  head linez = Some l0 -> l0 <> [] -> last linez = Some ll -> ll <> [] ->
  tight (join eol linez).
Proof.
  intros F H0 N0 HL NL. split.
  - destruct linez as [|l [|l' ls]]; [discriminate| |]; injection H0 as ->;
      apply Forall_cons in F as [[Th _] _].
    + exact Th.
    + rewrite join_cons_cons. intros c. rewrite head_app.
      destruct (head l0) eqn:E; [|destruct l0; [contradiction|discriminate E]].
      intros E'. injection E' as <-. now apply Th.
  - assert (E : last (join eol linez) = last ll).
    { clear H0 F. revert HL. induction linez as [|l [|l' ls] IH]; [discriminate| |].
      - intros E. now injection E as ->.
      - intros E. rewrite last_cons_cons in E. rewrite join_cons_cons, !last_app.
        rewrite (IH E). destruct (last ll) eqn:Hll; [reflexivity|].
        apply last_None in Hll. contradiction. }
    rewrite E. apply last_Some_elem_of in HL.
    exact (proj2 (proj1 (Forall_forall _ _) F ll HL)).
Qed.
End TrimFacts.

Lemma cell_tokens_join (cells : list jsstring) j :
  Forall clean_cell cells -> cell (tokens (join [comma] cells)) j = cell cells j.
Proof.
  intros F. destruct cells as [|c cs].
  - destruct j; reflexivity.
  - now rewrite tokens_join.
Qed.

(** Writing a sheet and parsing it gives the cells back. When headers and
    cells carry no surrounding white space, comma or line feed, the headers
    are distinct and none is [__proto__], and neither the header line nor
    the last line is empty, the text with LF or CRLF line ends parses to
    one record per row, whose keys are the headers and whose value under
    the j-th header is the j-th cell of the row (the empty string when the
    row is shorter). *)
Theorem parseCSV_round_trip (eol : jsstring) (headers : list jsstring)
    (rows : list (list jsstring)) :
  eol = [10%N] \/ eol = [13; 10]%N ->
  Forall clean_cell headers -> Forall (Forall clean_cell) rows ->
  NoDup headers -> proto_key ∉ headers ->
  join [comma] headers <> [] ->
  (forall cells, last rows = Some cells -> join [comma] cells <> []) ->
  let text := sheet_text eol (headers :: rows) in
  length (parseCSV text) = length rows
  /\ forall i cells, rows !! i = Some cells ->
       exists r, parseCSV text !! i = Some r
         /\ dom r =@{gset jsstring} list_to_set headers
         /\ forall j h, headers !! j = Some h -> r !! h = Some (cell cells j).
Proof.
  intros Heol Fh Fr Hnd Hproto Hhl Hlast text.
  set (linez := List.map (join [comma]) (headers :: rows)).
  assert (Ft : Forall tight linez).
  { subst linez. apply Forall_forall. intros l Hl.
    apply list_elem_of_fmap in Hl as [cells [-> Hc]]. apply join_cells_tight.
    apply elem_of_cons in Hc as [->|Hc]; [exact Fh|].
    exact (proj1 (Forall_forall _ _) Fr cells Hc). }
  assert (Fl : Forall (fun l => (10%N ∉ l) /\ last l <> Some 13%N) linez).
  { apply Forall_forall. intros l Hl. split.
    - subst linez. apply list_elem_of_fmap in Hl as [cells [-> Hc]]. apply join_cells_no_lf.
      apply elem_of_cons in Hc as [->|Hc]; [exact Fh|].
      exact (proj1 (Forall_forall _ _) Fr cells Hc).
    - intros E. pose proof (proj2 (proj1 (Forall_forall _ _) Ft l Hl) _ E) as W.
      discriminate W. }
  assert (HL : exists ll, last linez = Some ll /\ ll <> []).
  { subst linez. cbn [List.map]. rewrite last_cons.
    destruct (last (List.map (join [comma]) rows)) as [ll|] eqn:E.
    - exists ll. split; [reflexivity|].
      change (List.map (join [comma]) rows) with (join [comma] <$> rows) in E.
      rewrite fmap_last in E. destruct (last rows) as [cells|] eqn:E'; [|discriminate E].
      injection E as <-. now apply Hlast.
    - exists (join [comma] headers). split; [reflexivity | exact Hhl]. }
  destruct HL as (ll & HL & Hll).
  assert (Htext : trim text = text).
  { apply trim_tight. unfold text, sheet_text. fold linez.
    apply (join_lines_tight eol linez (join [comma] headers) ll); auto. }
  assert (Hlines : split_lines (trim text) = linez).
  { rewrite Htext. unfold text, sheet_text. fold linez.
    apply split_lines_join; [exact Heol | discriminate | exact Fl]. }
  assert (Hheaders : tokens (join [comma] headers) = headers).
  { apply tokens_join; [|exact Fh]. intros ->. now apply Hhl. }
  assert (P : parseCSV text
              = List.map (fun cells => row_to_record headers (join [comma] cells)) rows).
  { rewrite parseCSV_rows, Hlines. subst linez. cbn [List.map hd tl].
    rewrite Hheaders. now rewrite List.map_map. }
  rewrite P. split; [apply length_map|].
  intros i cells Hi. exists (row_to_record headers (join [comma] cells)).
  split; [|split].
  - rewrite list_lookup_fmap, Hi. reflexivity.
  - apply set_eq. intros h. unfold row_to_record.
    rewrite assign_fields_dom, dom_empty_L, elem_of_list_to_set, elem_of_empty.
    split; [tauto|]. intros Hh. right. split; [exact Hh|]. intros ->. contradiction.
  - intros j h Hj. unfold row_to_record.
    rewrite (assign_fields_lookup headers 0 _ ∅ j h Hj).
    + cbn [Nat.add]. rewrite cell_pad. f_equal. apply cell_tokens_join.
      exact (proj1 (Forall_forall _ _) Fr cells (list_elem_of_lookup_2 _ _ _ Hi)).
    + intros ->. apply Hproto. eapply list_elem_of_lookup_2. exact Hj.
    + intros j' Hlt Hj'. pose proof (NoDup_lookup _ _ _ _ Hnd Hj Hj'). lia.
Qed.

Lemma parseCSV_round_trip_witness :
  let text := sheet_text [13; 10]%N
                [ [js "item"; key_expiry; js "note"];
                  [js "rice"; js "2024-03-01"];
                  [js "water"; js "-"; js "keep cool"] ] in
  exists r1 r2, parseCSV text = [r1; r2]
    /\ r1 !! key_expiry = Some (js "2024-03-01") /\ r1 !! js "note" = Some []
    /\ r2 !! js "note" = Some (js "keep cool").
Proof.
  intros text.
  assert (C : forall c : jsstring,
            bool_decide (trim c = c) && bool_decide (comma ∉ c) && bool_decide (10%N ∉ c) = true ->
            clean_cell c).
  { intros c H. apply andb_true_iff in H as [H H3]. apply andb_true_iff in H as [H1 H2].
    apply bool_decide_eq_true in H1, H2, H3. now repeat split. }
  destruct (parseCSV_round_trip [13; 10]%N [js "item"; key_expiry; js "note"]
              [ [js "rice"; js "2024-03-01"]; [js "water"; js "-"; js "keep cool"] ])
    as [L H].
  - now right.
  - repeat constructor; apply C; vm_compute; reflexivity.
  - repeat constructor; apply C; vm_compute; reflexivity.
  - apply (bool_decide_unpack _). vm_compute. exact I.
  - apply (bool_decide_unpack _). vm_compute. exact I.
  - vm_compute. discriminate.
  - intros cells E. injection E as <-. vm_compute. discriminate.
  - fold text in L, H.
    destruct (H 0%nat _ eq_refl) as (r1 & E1 & _ & V1).
    destruct (H 1%nat _ eq_refl) as (r2 & E2 & _ & V2).
    exists r1, r2. split; [|split; [|split]].
    + destruct (parseCSV text) as [|x [|y [|z l]]]; try discriminate L.
      cbn in E1, E2. congruence.
    + exact (V1 1%nat key_expiry eq_refl).
    + exact (V1 2%nat (js "note") eq_refl).
    + exact (V2 2%nat (js "note") eq_refl).
Defined.

(** ** Filtering, sorting and the two columns *)

(** The filter goes through the items one by one and keeps an item exactly
    when the selector is empty, is ['all'], or equals the item's category
    field; so it keeps every item, duplicates included, for the selector
    ['all'] or an empty selector (a category literally named "all" cannot
    be singled out), and otherwise the items of the chosen category, in
    their original order. Filtering twice changes nothing. *)
Theorem apply_filter_spec sel (items : list Item) :
  apply_filter sel items `sublist_of` items
  /\ (forall i, i ∈ apply_filter sel items <->
                i ∈ items /\ (sel = [] \/ sel = js "all"
                              \/ fields i !! key_category = Some sel))
  /\ apply_filter sel (apply_filter sel items) = apply_filter sel items
  /\ apply_filter sel [] = []
  /\ (forall i l,
        apply_filter sel (i :: l)
        = if decide (sel = [] \/ sel = js "all" \/ fields i !! key_category = Some sel)
          then i :: apply_filter sel l else apply_filter sel l)
  /\ (sel = [] \/ sel = js "all" -> apply_filter sel items = items).
Proof.
  unfold apply_filter.
  destruct (decide (sel = [])) as [E1|E1]; [|destruct (decide (sel = js "all")) as [E2|E2]].
  - rewrite (bool_decide_eq_true_2 _ E1). cbn [negb andb].
    split; [reflexivity|]. split; [intros i; tauto|]. split; [reflexivity|].
    split; [reflexivity|]. split; [|reflexivity].
    intros i l. now rewrite decide_True by (now left).
  - rewrite (bool_decide_eq_true_2 _ E2), andb_false_r.
    split; [reflexivity|]. split; [intros i; tauto|]. split; [reflexivity|].
    split; [reflexivity|]. split; [|reflexivity].
    intros i l. now rewrite decide_True by (right; now left).
  - rewrite (bool_decide_eq_false_2 _ E1), (bool_decide_eq_false_2 _ E2). cbn [negb andb].
    split; [apply sublist_filter|]. split; [|split; [|split; [|split]]].
    + intros i. rewrite list_elem_of_filter. unfold in_category. tauto.
    + rewrite list_filter_filter. apply list_filter_iff. intros i. tauto.
    + reflexivity.
    + intros i l. rewrite filter_cons. unfold in_category at 1.
      destruct (decide (fields i !! key_category = Some sel)) as [H|H].
      * now rewrite decide_True by (right; now right).
      * rewrite decide_False; [reflexivity|]. intros [?|[?|?]]; contradiction.
    + intros [?|?]; contradiction.
Qed.

Lemma apply_sort_perm (env : Env) mode (l : list Item) : apply_sort env mode l ≡ₚ l.
Proof. unfold apply_sort. repeat case_bool_decide; [apply sort_perm..|reflexivity]. Qed.

Lemma interleave_cons {A} (x : A) (l r : list A) :
  interleave (x :: l) r = x :: interleave r l.
Proof.
  revert x r. induction l as [|z l IH]; intros x [|y r]; try reflexivity.
  change (x :: y :: interleave (z :: l) r = x :: y :: z :: interleave r l).
  now rewrite IH.
Qed.

Lemma interleave_length {A} (l r : list A) :
  length (interleave l r) = (length l + length r)%nat.
Proof.
  revert r. induction l as [|x l IH]; intros [|y r]; cbn [interleave length]; try lia.
  rewrite IH. lia.
Qed.

(** From a position of the right parity the column takes every other item. *)
Lemma column_interleave parity idx (l : list Item) :
  Nat.even idx = parity ->
  interleave (List.map fst (column parity idx l))
             (List.map fst (column (negb parity) idx l)) = l.
Proof.
  revert parity idx. induction l as [|x l IH]; intros parity idx H; [reflexivity|].
  cbn [column]. rewrite (bool_decide_eq_true_2 _ H).
  rewrite bool_decide_eq_false_2 by (rewrite H; now destruct parity).
  cbn [List.map fst]. rewrite interleave_cons. f_equal.
  rewrite <- (negb_involutive parity) at 2. apply IH.
  rewrite Nat.even_succ, <- Nat.negb_even. now rewrite H.
Qed.

Lemma column_lookup parity idx (l : list Item) k c :
  column parity idx l !! k = Some c ->
  let o := if bool_decide (Nat.even idx = parity) then 0%nat else 1%nat in
  l !! (2 * k + o)%nat = Some (fst c) /\ snd c = S (idx + 2 * k + o).
Proof.
  revert parity idx k. induction l as [|x l IH]; intros parity idx k; [discriminate|].
  cbn [column]. cbv zeta. intros H.
  assert (Hs : bool_decide (Nat.even (S idx) = parity)
               = negb (bool_decide (Nat.even idx = parity))).
  { rewrite Nat.even_succ, <- Nat.negb_even.
    destruct (Nat.even idx), parity; reflexivity. }
  destruct (bool_decide (Nat.even idx = parity)) eqn:E.
  - destruct k as [|k].
    + injection H as <-. cbn. split; [reflexivity | lia].
    + cbn in H. apply IH in H. rewrite Hs in H. cbn [negb] in H.
      destruct H as [H1 H2]. split.
      * replace (2 * S k + 0)%nat with (S (2 * k + 1)) by lia. exact H1.
      * rewrite H2. lia.
  - apply IH in H. rewrite Hs in H. cbn [negb] in H. destruct H as [H1 H2]. split.
    + replace (2 * k + 1)%nat with (S (2 * k + 0)) by lia. exact H1.
    + rewrite H2. lia.
Qed.

(** The listing. Whatever the selection, the cards of the two columns read
    alternately (left first) are the filtered items in sorted order; that
    order is a rearrangement of the filtered items, none lost and none
    repeated; and the k-th card of the left column shows item 2k of that
    order with number 2k+1, the k-th card of the right column item 2k+1
    with number 2k+2. *)
Theorem listing_columns (env : Env) (items : list Item) (d : Dom) :
  let shown := apply_sort env (sortSelect_value d)
                 (apply_filter (filterSelect_value d) items) in
  exists L R,
    listColLeft (renderAll env items d) = Rendered L
    /\ listColRight (renderAll env items d) = Rendered R
    /\ interleave (List.map fst L) (List.map fst R) = shown
    /\ shown ≡ₚ apply_filter (filterSelect_value d) items
    /\ (length L + length R = length (apply_filter (filterSelect_value d) items))%nat
    /\ (forall k c, L !! k = Some c ->
          shown !! (2 * k)%nat = Some (fst c) /\ snd c = (2 * k + 1)%nat)
    /\ (forall k c, R !! k = Some c ->
          shown !! (2 * k + 1)%nat = Some (fst c) /\ snd c = (2 * k + 2)%nat).
Proof.
  intros shown. exists (column true 0 shown), (column false 0 shown).
  assert (I : interleave (List.map fst (column true 0 shown))
                         (List.map fst (column false 0 shown)) = shown)
    by (apply (column_interleave true 0 shown); reflexivity).
  split; [reflexivity|]. split; [reflexivity|]. split; [exact I|].
  split; [apply apply_sort_perm|]. split; [|split].
  - rewrite <- (Permutation_length (apply_sort_perm env (sortSelect_value d) _)).
    fold shown. rewrite <- I at 3. now rewrite interleave_length, !length_map.
  - intros k c H. destruct (column_lookup true 0 shown k c H) as [H1 H2].
    change (shown !! (2 * k + 0)%nat = Some (fst c)) in H1.
    change (snd c = S (0 + 2 * k + 0)) in H2.
    rewrite Nat.add_0_r in H1. split; [exact H1 | lia].
  - intros k c H. destruct (column_lookup false 0 shown k c H) as [H1 H2].
    change (shown !! (2 * k + 1)%nat = Some (fst c)) in H1.
    change (snd c = S (0 + 2 * k + 1)) in H2.
    split; [exact H1 | lia].
Qed.

(** ** Order of equal keys *)

Section SortStable.
Context {A : Type} (cmp : A -> A -> Number) (key : A -> Z) (valid : A -> Prop).
Hypothesis keeps_before_key :
  forall x y, valid x -> valid y -> keeps_before cmp x y = (key x <=? key y).

Lemma sort_insert_stable x l k :
  valid x -> Forall valid l ->
  filter (fun a => key a = k) (sort_insert cmp x l) = filter (fun a => key a = k) (x :: l).
Proof.
  intros Vx. induction l as [|y l IH]; intros Vl; [reflexivity|].
  apply Forall_cons in Vl as [Vy Vl]. cbn [sort_insert].
  rewrite keeps_before_key by assumption.
  destruct (Z.leb_spec (key x) (key y)) as [|Hlt]; [reflexivity|].
  rewrite (filter_cons _ y), (IH Vl), !(filter_cons _ x), (filter_cons _ y).
  repeat case_decide; try reflexivity; lia.
Qed.

Lemma sort_stable l k :
  Forall valid l ->
  filter (fun a => key a = k) (sort cmp l) = filter (fun a => key a = k) l.
Proof.
  induction 1 as [|x l Vx Vl IH]; [reflexivity|].
  cbn [sort foldr]. fold (sort cmp l).
  rewrite sort_insert_stable; [|exact Vx|now rewrite sort_perm].
  rewrite !(filter_cons _ x), IH. reflexivity.
Qed.

Lemma sort_sorted_id l :
  Forall valid l -> StronglySorted (fun a b => key a <= key b) l -> sort cmp l = l.
Proof.
  intros V S. induction S as [|x l S IH Hx]; [reflexivity|].
  apply Forall_cons in V as [Vx Vl]. cbn [sort foldr]. fold (sort cmp l).
  rewrite (IH Vl). destruct l as [|y l]; [reflexivity|]. cbn [sort_insert].
  apply Forall_cons in Vl as [Vy _]. apply Forall_cons in Hx as [Hxy _].
  rewrite keeps_before_key by assumption.
  now rewrite (proj2 (Z.leb_le _ _) Hxy).
Qed.
End SortStable.

(** The 'expiry' order is stable: when every dated item has a valid
    [daysLeft], items with the same [daysLeft] (and the items without
    expiry date among themselves, and together with any item dated exactly
    99999 days ahead) keep the order they have in the sheet; a list already
    in ascending order is shown as it is. *)
Theorem sort_expiry_stable (env : Env) (l : list Item) :
  Forall valid_days l ->
  (forall k, filter (fun a => expiry_rank a = k) (apply_sort env (js "expiry") l)
             = filter (fun a => expiry_rank a = k) l)
  /\ (StronglySorted (fun a b => expiry_rank a <= expiry_rank b) l ->
      apply_sort env (js "expiry") l = l).
Proof.
  intros V. rewrite apply_sort_expiry. split.
  - intros k. now apply (sort_stable cmp_expiry expiry_rank valid_days keeps_before_expiry).
  - now apply (sort_sorted_id cmp_expiry expiry_rank valid_days keeps_before_expiry).
Qed.

Lemma sort_expiry_stable_witness :
  let l := sample_items ["rice,2024-03-01"; "water,-"; "beans,2024-03-01"; "salt,"]%string in
  List.map (fun a => fields a !! js "item")
           (filter (fun a => expiry_rank a = 60) (apply_sort sample_env (js "expiry") l))
  = [Some (js "rice"); Some (js "beans")].
Proof.
  intros l.
  assert (V : Forall valid_days l) by (apply (bool_decide_unpack _); vm_compute; exact I).
  destruct (sort_expiry_stable sample_env l V) as [H _].
  rewrite (H 60). vm_compute. reflexivity.
Defined.

(** ** The urgent list *)

Lemma classified_expired_days (env : Env) (r : RowObject) :
  status (_meta (make_item env r)) = expired ->
  exists z, daysLeft (_meta (make_item env r)) = Some (Num z) /\ z <= 30.
Proof.
  unfold make_item. cbn [_meta].
  pose proof (computeExpiryInfo_status env (r !! key_expiry)) as H.
  destruct (computeExpiryInfo env (r !! key_expiry)) as [[n|] st]; cbn [daysLeft status] in *.
  - intros E. rewrite E in H. destruct n as [|z]; [discriminate H|].
    exists z. split; [reflexivity|]. rewrite classify_days_thresholds in H.
    destruct (Z.leb_spec z 30); [assumption|]. destruct (z <=? 89); discriminate H.
  - intros E. congruence.
Qed.

(** Every urgent row of a loaded sheet belongs to an item with a real number
    of days left, at most 30; the rows are in ascending order of that number
    (longest overdue first); and a row reads "N days left" for N from 0 to
    30 and "overdue by N days" for a past date, never "no expiry". *)
Theorem urgent_rows_sorted_and_labelled (env : Env) (raw : list RowObject) (d : Dom) :
  let us := urgent_items (classify env raw) in
  StronglySorted (fun a b => expiry_rank a <= expiry_rank b) us
  /\ Forall (fun i => exists z, daysLeft (_meta i) = Some (Num z) /\ z <= 30
                       /\ days_label (daysLeft (_meta i))
                          = if 0 <=? z then LabelRemaining (Num z)
                            else LabelOverdue (Num (- z))) us
  /\ (us <> [] ->
      urgentList (renderAll env (classify env raw) d)
      = Rendered (UrgentRows (List.map (fun i => (i, days_label (daysLeft (_meta i)))) us))).
Proof.
  intros us.
  assert (F : Forall (fun i => exists z, daysLeft (_meta i) = Some (Num z) /\ z <= 30) us).
  { apply Forall_forall. intros i Hi. subst us. unfold urgent_items in Hi.
    rewrite sort_perm, urgent_filter_classified in Hi.
    apply list_elem_of_filter in Hi as [Hs Hi].
    apply list_elem_of_fmap in Hi as [r [-> _]]. now apply classified_expired_days. }
  split; [|split].
  - subst us. unfold urgent_items.
    apply (sort_sorted cmp_expiry expiry_rank valid_days keeps_before_expiry).
    apply Forall_forall. intros i Hi.
    assert (Hi' : i ∈ urgent_items (classify env raw))
      by (unfold urgent_items; now rewrite sort_perm).
    destruct (proj1 (Forall_forall _ _) F i Hi') as (z & Hz & _).
    unfold valid_days. rewrite Hz. discriminate.
  - eapply Forall_impl; [exact F|]. intros i (z & Hz & Hle). exists z.
    split; [exact Hz|]. split; [exact Hle|]. rewrite Hz. cbn [days_label].
    destruct (Z.leb_spec 0 z); [reflexivity|]. f_equal. f_equal. lia.
  - intros Hne. cbn [renderAll urgentList]. fold us.
    destruct us as [|u us']; [contradiction|]. reflexivity.
Qed.

(** ** Cards *)

(** On a loaded sheet the red pill and the urgent list go together: the
    card of an item is red exactly when the item is in the urgent list, it
    is yellow exactly for [soon], and it reads "no expiry" (pill text and
    days text alike) exactly for the items without a readable date. *)
Theorem card_pill_matches_urgent_list (env : Env) (raw : list RowObject) i n :
  i ∈ classify env raw ->
  (card_statusClass (createItemCard i n) = status_red
   <-> i ∈ urgent_items (classify env raw))
  /\ (card_statusClass (createItemCard i n) = status_yellow <-> status (_meta i) = soon)
  /\ (card_statusText (createItemCard i n) = TextNoExpiry
      <-> card_days (createItemCard i n) = LabelNoExpiry)
  /\ (card_days (createItemCard i n) = LabelNoExpiry <-> daysLeft (_meta i) = None).
Proof.
  intros Hi.
  assert (U : i ∈ urgent_items (classify env raw) <-> status (_meta i) = expired).
  { unfold urgent_items. rewrite sort_perm, urgent_filter_classified, list_elem_of_filter.
    unfold has_status. tauto. }
  assert (N : daysLeft (_meta i) = None <-> status (_meta i) = noexpiry).
  { apply list_elem_of_fmap in Hi as [r [-> _]]. unfold make_item. cbn [_meta].
    pose proof (computeExpiryInfo_status env (r !! key_expiry)) as H.
    destruct (computeExpiryInfo env (r !! key_expiry)) as [[k|] st]; cbn [daysLeft status] in *.
    - split; [discriminate|]. intros E. rewrite E in H. symmetry in H.
      now apply classify_days_dated in H.
    - tauto. }
  assert (L : card_days (createItemCard i n) = LabelNoExpiry <-> daysLeft (_meta i) = None).
  { unfold createItemCard. destruct (status (_meta i)); cbn [card_days];
      (destruct (daysLeft (_meta i)) as [[|z]|]; cbn [days_label];
       [split; discriminate | destruct (0 <=? z); split; discriminate | tauto]). }
  rewrite U, L, N. unfold createItemCard.
  destruct (status (_meta i)); cbn [card_statusClass card_statusText];
    repeat split; intros; congruence.
Qed.

Lemma card_pill_matches_urgent_list_witness :
  let l := sample_items ["rice,2024-01-20"; "water,-"]%string in
  Forall (fun i => card_statusClass (createItemCard i 1) = status_red
                   <-> i ∈ urgent_items l) l.
Proof.
  intros l. apply Forall_forall. intros i Hi.
  exact (proj1 (card_pill_matches_urgent_list sample_env
                  (parseCSV (sample_text ["rice,2024-01-20"; "water,-"]%string)) i 1 Hi)).
Defined.

Lemma ICON_MAP_glyphs c g : ICON_MAP !! c = Some g -> g <> [].
Proof.
  intros H. apply elem_of_list_to_map_2 in H.
  repeat (apply elem_of_cons in H as [H|H]; [injection H as _ ->; discriminate|]).
  now apply elem_of_nil in H.
Qed.

(** The icon of a card: the emoji of [ICON_MAP] for the eight known
    categories; the box emoji for a missing category and for any other
    category, except that a category spelled like a member of
    [Object.prototype] (such as "constructor") picks up that member
    instead of an emoji. *)
Theorem card_icon_spec (item : Item) n :
  match fields item !! key_category with
  | None => card_icon (createItemCard item n) = Glyph default_icon
  | Some c =>
      match ICON_MAP !! c with
      | Some g => card_icon (createItemCard item n) = Glyph g /\ g <> []
      | None =>
          if bool_decide (c ∈ Object_prototype_members)
          then card_icon (createItemCard item n) = Inherited c
          else card_icon (createItemCard item n) = Glyph default_icon
      end
  end.
Proof.
  unfold createItemCard. destruct (status (_meta item)); cbn [card_icon];
    (destruct (fields item !! key_category) as [c|]; [|reflexivity];
     unfold icon_of, default; cbn [from_option id];
     destruct (ICON_MAP !! c) as [g|] eqn:E;
     [ pose proof (ICON_MAP_glyphs c g E) as G;
       case_bool_decide; [contradiction|]; split; [reflexivity | exact G]
     | destruct (bool_decide (c ∈ Object_prototype_members)); reflexivity ]).
Qed.

(** ** Loading and refreshing *)

(** However a refresh ends, the button is enabled again with its normal
    caption, the handler's promise is fulfilled (no error escapes), and the
    selections of the two selects are untouched. *)
Theorem refresh_button_restored (env : Env) (net : FetchOutcome) (st : State) :
  let st' := fst (refresh_click env net st) in
  snd (refresh_click env net st) = Fulfilled tt
  /\ refreshBtn_disabled (page st') = false
  /\ refreshBtn_text (page st') = BtnRefresh
  /\ filterSelect_value (page st') = filterSelect_value (page st)
  /\ sortSelect_value (page st') = sortSelect_value (page st).
Proof. destruct net; repeat split. Qed.

(** With at least one data line, the initial load and a refresh do the
    same to the data: the items become the classified rows of the document
    (whatever was loaded before is replaced), no notification is shown, the
    counters, urgent list and columns are those of these items, and the
    total shown is the number of lines of the trimmed text after the
    header. *)
Theorem load_paths_agree (env : Env) (text : jsstring) (st : State) :
  10%N ∈ trim text ->
  let a := fst (init env (FetchText text) st) in
  let b := fst (refresh_click env (FetchText text) st) in
  items a = classify env (parseCSV text) /\ items b = items a
  /\ alerts a = alerts st /\ alerts b = alerts st
  /\ totalCountEl (page a) = Rendered (length (split_lines (trim text)) - 1)%nat
  /\ totalCountEl (page b) = totalCountEl (page a)
  /\ safeCountEl (page b) = safeCountEl (page a)
  /\ soonCountEl (page b) = soonCountEl (page a)
  /\ expiredCountEl (page b) = expiredCountEl (page a)
  /\ urgentList (page b) = urgentList (page a)
  /\ listColLeft (page b) = listColLeft (page a)
  /\ listColRight (page b) = listColRight (page a).
Proof.
  intros Hlf a b.
  assert (Hne : (length (parseCSV text) =? 0)%nat = false).
  { apply Nat.eqb_neq. intros E. apply length_zero_iff_nil in E.
    now apply parseCSV_empty_iff in E. }
  assert (Ea : a = load_and_render env (parseCSV text) st).
  { subst a. unfold init, fetchAndParseCSV. cbn [CSV_URL_is_placeholder].
    now rewrite Hne. }
  rewrite Ea. subst b. repeat split.
  change (Rendered (length (classify env (parseCSV text)))
          = Rendered (length (split_lines (trim text)) - 1)%nat).
  unfold classify. rewrite length_map, parseCSV_rows, length_map.
  destruct (split_lines (trim text)); cbn [tl length]; f_equal; lia.
Qed.

Lemma load_paths_agree_witness :
  let text := sample_text ["rice,2024-03-01"; "water,-"]%string in
  totalCountEl (page (fst (init sample_env (FetchText text) (empty_rendered_state (js "all") []))))
  = Rendered 2%nat.
Proof.
  intros text.
  assert (H : 10%N ∈ trim text) by (apply (bool_decide_unpack _); vm_compute; exact I).
  destruct (load_paths_agree sample_env text (empty_rendered_state (js "all") []) H)
    as (_ & _ & _ & _ & T & _).
  rewrite T. vm_compute. reflexivity.
Defined.

(** ** Dates beyond the range of [Date] *)

(** A date whose local midnight lies outside the range of time values
    (about 275760 years around 1970) is not rejected: [daysLeft] is NaN,
    the status is [safe], the item is not urgent, and the days text of its
    card is the "overdue" form around NaN. *)
Theorem computeExpiryInfo_out_of_range (env : Env) s a b c y m d :
  split hyphen s = [a; b; c] ->
  parseInt a = Num y -> parseInt b = Num m -> parseInt c = Num d ->
  8640000000000000 < Z.abs (UTC env (MakeDay (full_year y) (m - 1) d * msPerDay)) ->
  computeExpiryInfo env (Some s) = {| daysLeft := Some NaN; status := safe |}
  /\ forall f, is_urgentb {| fields := f; _meta := computeExpiryInfo env (Some s) |} = false
  /\ days_label (daysLeft (computeExpiryInfo env (Some s))) = LabelOverdue NaN.
Proof.
  intros Hs Ha Hb Hc Hbig.
  assert (E : computeExpiryInfo env (Some s) = {| daysLeft := Some NaN; status := safe |}).
  { rewrite (computeExpiryInfo_dated env s a b c y m d Hs Ha Hb Hc).
    unfold days_until, new_Date, TimeClip.
    rewrite (proj2 (Z.leb_gt _ _) Hbig). reflexivity. }
  rewrite E. split; [reflexivity|]. intros f. split; reflexivity.
Qed.

Lemma computeExpiryInfo_out_of_range_witness :
  computeExpiryInfo taipei_noon (Some (js "300000-01-01"))
  = {| daysLeft := Some NaN; status := safe |}.
Proof.
  apply (computeExpiryInfo_out_of_range taipei_noon (js "300000-01-01")
           (js "300000") (js "01") (js "01") 300000 1 1);
    try reflexivity.
Defined.

(** ** Changing the selection *)

(** A change of the selects renders from the items and the new selection
    alone: the items, the notifications and the button are untouched, the
    counters and the urgent list are what the load rendered, and after two
    changes in a row the page is as if only the second had happened. *)
Theorem select_change_last_wins (env : Env) (raw : list RowObject) (st : State)
    (f1 s1 f2 s2 : jsstring) :
  let loaded := load_and_render env raw st in
  let st1 := select_change env f1 s1 loaded in
  items st1 = classify env raw
  /\ alerts st1 = alerts st
  /\ totalCountEl (page st1) = totalCountEl (page loaded)
  /\ safeCountEl (page st1) = safeCountEl (page loaded)
  /\ soonCountEl (page st1) = soonCountEl (page loaded)
  /\ expiredCountEl (page st1) = expiredCountEl (page loaded)
  /\ urgentList (page st1) = urgentList (page loaded)
  /\ refreshBtn_disabled (page st1) = refreshBtn_disabled (page st)
  /\ filterSelect_value (page st1) = f1 /\ sortSelect_value (page st1) = s1
  /\ select_change env f2 s2 st1 = select_change env f2 s2 loaded.
Proof. repeat split. Qed.

(** ** Clock changes between today and the date *)

(** How far [daysLeft] is from the calendar distance [k] when local time
    has offset [offT] at today's midnight and [offE] at the midnight of the
    date: if the clock is set back in between by up to a day
    ([offT > offE], as at the end of daylight saving), [daysLeft] is
    [k + 1]; if it is set forward by less than a day or not at all,
    [daysLeft] is [k]. *)
Theorem days_until_offset_change (env : Env) s a b c y m d offT offE k :
  split hyphen s = [a; b; c] ->
  parseInt a = Num y -> parseInt b = Num m -> parseInt c = Num d ->
  let T := Day (LocalTime env (now env)) * msPerDay in
  let E := MakeDay (full_year y) (m - 1) d * msPerDay in
  LocalTZA env T false = offT -> LocalTZA env E false = offE ->
  LocalTZA env (E - offE) true = offE ->
  Z.abs (T - offT) <= 8640000000000000 -> Z.abs (E - offE) <= 8640000000000000 ->
  days_ahead env y m d k ->
  - msPerDay < offT - offE <= msPerDay ->
  daysLeft (computeExpiryInfo env (Some s))
  = Some (Num (if 0 <? offT - offE then k + 1 else k)).
Proof.
  intros Hs Ha Hb Hc T E HT HE HE' RT RE Hk Hd.
  rewrite (computeExpiryInfo_dated env s a b c y m d Hs Ha Hb Hc). cbn [daysLeft].
  f_equal. unfold days_until, days_ahead in *.
  set (T0 := Day (LocalTime env (now env))) in *.
  set (D := MakeDay (full_year y) (m - 1) d) in *.
  assert (Hexp : setHours0 env (new_Date env (Num y) (Num (m - 1)) (Num d))
                 = Num (E - offE)).
  { unfold new_Date. fold D. fold E. unfold UTC at 1. rewrite HE, TimeClip_in_range by exact RE.
    unfold setHours0, LocalTime. rewrite HE'.
    replace (E - offE + offE) with (D * msPerDay) by (unfold E; ring).
    unfold Day at 1. rewrite Z.div_mul by discriminate. fold E.
    unfold UTC. rewrite HE. now apply TimeClip_in_range. }
  assert (Htoday : setHours0 env (new_Date_now env) = Num (T - offT)).
  { unfold new_Date_now, setHours0. fold T0. fold T. unfold UTC. rewrite HT.
    now apply TimeClip_in_range. }
  rewrite Hexp, Htoday. cbn [num_sub ceil_days]. f_equal.
  unfold E, T. rewrite Hk. unfold msPerDay in *.
  destruct (Z.ltb_spec 0 (offT - offE)) as [Hpos|Hneg].
  - replace (- ((T0 + k) * 86400000 - offE - (T0 * 86400000 - offT)))
      with ((86400000 - (offT - offE)) + (- k - 1) * 86400000) by ring.
    rewrite Z.div_add by discriminate. rewrite Z.div_small by lia. lia.
  - replace (- ((T0 + k) * 86400000 - offE - (T0 * 86400000 - offT)))
      with ((- (offT - offE)) + (- k) * 86400000) by ring.
    rewrite Z.div_add by discriminate. rewrite Z.div_small by lia. lia.
Qed.

Lemma days_until_offset_change_witness :
  let env := new_york_host (utc_instant 2024 10 20 16) in
  daysLeft (computeExpiryInfo env (Some (js "2024-11-19"))) = Some (Num 31)
  /\ daysLeft (computeExpiryInfo (new_york_host (utc_instant 2024 2 20 16))
                 (Some (js "2024-03-21"))) = Some (Num 30).
Proof.
  split.
  - apply (days_until_offset_change (new_york_host (utc_instant 2024 10 20 16))
             (js "2024-11-19") (js "2024") (js "11") (js "19") 2024 11 19
             (hours (-4)) (hours (-5)) 30);
      try reflexivity; vm_compute; try split; congruence.
  - apply (days_until_offset_change (new_york_host (utc_instant 2024 2 20 16))
             (js "2024-03-21") (js "2024") (js "03") (js "21") 2024 3 21
             (hours (-5)) (hours (-4)) 30);
      try reflexivity; vm_compute; try split; congruence.
Defined.
